(** * CurveFS: metaserver operator pipeline and write-back disk cache uploader

    A shallow embedding of
      - curvefs/src/metaserver/copyset/meta_operator.cpp
      - curvefs/src/client/s3/disk_cache_write.cpp
    together with the properties that the design document states about
    them.  Stateful code is written in a small state monad over an explicit
    world; every call that leaves the translation unit (consensus node,
    metastore, RPC closure, stream server, POSIX wrapper, object-store
    client) is recorded in a chronological trace. *)

From Stdlib Require Import ZArith List String Ascii Bool Lia.
From Stdlib Require Import Strings.Byte.
From Stdlib Require Import Sorting.Permutation.
Import ListNotations.
Open Scope Z_scope.

(** ** Machine integers *)

(** Value of a [uint64_t] holding the mathematical integer [z]. *)
Definition u64 (z : Z) : Z := z mod 2 ^ 64.

(** Value of an [int64_t] obtained from [z] by the usual two's complement
    conversion. *)
Definition i64 (z : Z) : Z := (z + 2 ^ 63) mod 2 ^ 64 - 2 ^ 63.

(** Value of an [int] (32 bits) obtained from [z]. *)
Definition i32 (z : Z) : Z := (z + 2 ^ 31) mod 2 ^ 32 - 2 ^ 31.

Definition in_i64 (z : Z) : Prop := - 2 ^ 63 <= z < 2 ^ 63.
Definition in_u64 (z : Z) : Prop := 0 <= z < 2 ^ 64.

(** ** Metaserver operator pipeline (meta_operator.cpp) *)

Module MetaOp.

(** [OperatorType]: one tag per [TYPE##Operator] class instantiated by the
    macros of the file. *)
Inductive OperatorType : Type :=
| GetDentry | ListDentry | CreateDentry | DeleteDentry
| GetInode | BatchGetInodeAttr | BatchGetXAttr
| CreateInode | UpdateInode | GetOrModifyS3ChunkInfo | DeleteInode
| CreateRootInode | CreateManageInode
| CreatePartition | DeletePartition | PrepareRenameTx
| GetVolumeExtent | UpdateVolumeExtent | UpdateDeallocatableBlockGroup.

(** [MetaStatusCode] is declared in metaserver.proto, which is not part of
    the sources at hand; the codes that the operators name are kept, every
    other code of the enumeration is [OtherCode n]. *)
Inductive MetaStatusCode : Type :=
| OK | UNKNOWN_ERROR | REDIRECTED | RPC_STREAM_ERROR
| OtherCode (n : Z).

Definition is_OK (s : MetaStatusCode) : bool :=
  match s with OK => true | _ => false end.

(** Lease state reported by the consensus node. *)
Inductive LeaseStatus : Type :=
| LeaseLeader | LeaseExpired | LeaseNotReady | LeaseDisabled.

(** Modelled from the spec: [CopysetNode::IsLeaseLeader] is declared
    outside this file; the lease status is a tagged value and the
    predicate tests for the [LeaseLeader] tag. *)
Definition IsLeaseLeader (s : LeaseStatus) : bool :=
  match s with LeaseLeader => true | _ => false end.

(** Modelled from the spec: [CopysetNode::IsLeaseExpired] is declared
    outside this file; it tests for the [LeaseExpired] tag. *)
Definition IsLeaseExpired (s : LeaseStatus) : bool :=
  match s with LeaseExpired => true | _ => false end.

(** The request fields that the operators read.  [partition_partitionid]
    is [request.partition().partitionid()] of a CreatePartition request. *)
Record Request : Type := {
  partitionid : Z;
  partition_partitionid : Z;
  streaming : bool;
  returns3chunkinfomap : bool;
  supportstreaming : bool;
  req_body : Z
}.

(** The response fields that the operators write.  A field that was never
    set is [None]; [resp_body] stands for whatever else the metastore
    filled in. *)
Record Response : Type := {
  statuscode : option MetaStatusCode;
  appliedindex : option Z;
  slices : list Z;
  resp_body : Z
}.

Definition set_statuscode (c : MetaStatusCode) (r : Response) : Response :=
  {| statuscode := Some c; appliedindex := appliedindex r;
     slices := slices r; resp_body := resp_body r |}.

Definition set_appliedindex (i : Z) (r : Response) : Response :=
  {| statuscode := statuscode r; appliedindex := Some i;
     slices := slices r; resp_body := resp_body r |}.

Definition clear_slices (r : Response) : Response :=
  {| statuscode := statuscode r; appliedindex := appliedindex r;
     slices := []; resp_body := resp_body r |}.

(** Closures.  [RpcDone id] is the completion closure handed over by the
    RPC framework ([done_]); [MetaOperatorClosure id] is the object built
    by [new MetaOperatorClosure(this)] for the operator whose [done_] is
    [RpcDone id].  Closures are never null on the paths modelled here. *)
Inductive Closure : Type :=
| RpcDone (id : nat)
| MetaOperatorClosure (id : nat).

Definition Controller := Z.
Definition StreamConnection := Z.
Definition Iterator := Z.
Definition IOBuf := list Z.

Record MetaOperator : Type := {
  op_type : OperatorType;
  request_ : Request;
  cntl_ : Controller;
  done_id : nat
}.

Definition done_ (op : MetaOperator) : Closure := RpcDone (done_id op).

(** The [braft::Task] built by [ProposeTask]. *)
Record RaftTask : Type := {
  task_data : IOBuf;
  task_done : Closure;
  expected_term : Z
}.

(** The bound call [OnApply(index, done, startTimeUs)] pushed on the apply
    queue by [FastApplyTask]. *)
Record ApplyTask : Type := {
  at_op : MetaOperator;
  at_index : Z;
  at_done : Closure;
  at_startTimeUs : Z
}.

Inductive Metric : Type :=
| WaitInQueueLatency (ty : OperatorType) (latency : Z)
| ExecuteLatency (ty : OperatorType) (latency : Z)
| OnOperatorComplete (ty : OperatorType) (latency : Z) (success : bool).

(** Calls that leave the operator.  [EvRun c r] is [c->Run()], taken while
    the response held [r]: this is what the closure (and, for the RPC
    closure, the client) gets to see. *)
Inductive Event : Type :=
| EvRun (c : Closure) (seen : Response)
| EvNodePropose (t : RaftTask)
| EvApplyQueuePush (hash : Z) (ty : OperatorType) (t : ApplyTask)
| EvUpdateAppliedIndex (index : Z)
| EvMetaStore (ty : OperatorType) (req : Request)
| EvMetric (m : Metric)
| EvStreamAccept (cntl : Controller)
| EvSendS3ChunkInfoByStream (conn : StreamConnection) (it : Iterator)
| EvStreamingSendVolumeExtent (conn : StreamConnection) (extents : list Z).

(** Collaborators that are not defined in this file: the metastore, the
    raft log codec, the part of the copyset node that stores the applied
    index, and the stream server. *)
Class Collaborators : Type := {
  MetaStoreState : Type;
  (** [metastore->TYPE(request, response)]: returned status, the response
      as the metastore leaves it, and the new metastore state. *)
  metastore_call :
    OperatorType -> Request -> Response -> MetaStoreState ->
    MetaStatusCode * Response * MetaStoreState;
  (** The iterator produced by [GetOrModifyS3ChunkInfo]. *)
  metastore_iterator : Request -> MetaStoreState -> Iterator;
  (** [RaftLogCodec::Encode]: [None] when it returns false. *)
  Encode : OperatorType -> Request -> option IOBuf;
  (** [CopysetNode::UpdateAppliedIndex(index)]: the stored applied index
      afterwards, from the argument and the stored value before. *)
  node_update_applied : Z -> Z -> Z;
  (** [StreamServer::Accept(cntl)]: [None] is the null connection. *)
  stream_accept : Controller -> option StreamConnection
}.

Section Pipeline.

Context `{C : Collaborators}.

(** The world an operator runs in: the node it points to, the metastore,
    the response object it points to, the clock and the trace. *)
Record World : Type := {
  w_is_leader_term : bool;
  w_lease_status : LeaseStatus;
  w_leader_term : Z;
  w_applied : Z;
  w_metastore : MetaStoreState;
  w_response : Response;
  w_clock : nat -> Z;
  w_ticks : nat;
  w_trace : list Event
}.

Definition with_trace (t : list Event) (w : World) : World :=
  {| w_is_leader_term := w_is_leader_term w;
     w_lease_status := w_lease_status w;
     w_leader_term := w_leader_term w;
     w_applied := w_applied w;
     w_metastore := w_metastore w;
     w_response := w_response w;
     w_clock := w_clock w;
     w_ticks := w_ticks w;
     w_trace := t |}.

Definition with_response (r : Response) (w : World) : World :=
  {| w_is_leader_term := w_is_leader_term w;
     w_lease_status := w_lease_status w;
     w_leader_term := w_leader_term w;
     w_applied := w_applied w;
     w_metastore := w_metastore w;
     w_response := r;
     w_clock := w_clock w;
     w_ticks := w_ticks w;
     w_trace := w_trace w |}.

Definition with_applied (a : Z) (w : World) : World :=
  {| w_is_leader_term := w_is_leader_term w;
     w_lease_status := w_lease_status w;
     w_leader_term := w_leader_term w;
     w_applied := a;
     w_metastore := w_metastore w;
     w_response := w_response w;
     w_clock := w_clock w;
     w_ticks := w_ticks w;
     w_trace := w_trace w |}.

Definition with_metastore (m : MetaStoreState) (w : World) : World :=
  {| w_is_leader_term := w_is_leader_term w;
     w_lease_status := w_lease_status w;
     w_leader_term := w_leader_term w;
     w_applied := w_applied w;
     w_metastore := m;
     w_response := w_response w;
     w_clock := w_clock w;
     w_ticks := w_ticks w;
     w_trace := w_trace w |}.

Definition with_ticks (n : nat) (w : World) : World :=
  {| w_is_leader_term := w_is_leader_term w;
     w_lease_status := w_lease_status w;
     w_leader_term := w_leader_term w;
     w_applied := w_applied w;
     w_metastore := w_metastore w;
     w_response := w_response w;
     w_clock := w_clock w;
     w_ticks := n;
     w_trace := w_trace w |}.

(** *** The state monad *)

Definition M (A : Type) : Type := World -> A * World.

Definition ret {A} (a : A) : M A := fun w => (a, w).

Definition bind {A B} (m : M A) (k : A -> M B) : M B :=
  fun w => let (a, w1) := m w in k a w1.

Notation "x <- m ;; k" := (bind m (fun x => k))
  (at level 61, m at next level, right associativity).
Notation "m ;;; k" := (bind m (fun _ => k))
  (at level 61, right associativity).

Definition emit (e : Event) : M unit :=
  fun w => (tt, with_trace (w_trace w ++ [e]) w).

Definition get_response : M Response := fun w => (w_response w, w).

Definition modify_response (f : Response -> Response) : M unit :=
  fun w => (tt, with_response (f (w_response w)) w).

(** [TimeUtility::GetTimeofDayUs()]: the next reading of the clock. *)
Definition GetTimeofDayUs : M Z :=
  fun w => (w_clock w (w_ticks w), with_ticks (S (w_ticks w)) w).

Definition IsLeaderTerm : M bool := fun w => (w_is_leader_term w, w).
Definition GetLeaderLeaseStatus : M LeaseStatus :=
  fun w => (w_lease_status w, w).
Definition LeaderTerm : M Z := fun w => (w_leader_term w, w).
Definition GetAppliedIndex : M Z := fun w => (w_applied w, w).

(** [node_->UpdateAppliedIndex(index)]; the parameter is a [uint64_t]. *)
Definition UpdateAppliedIndex (index : Z) : M unit :=
  emit (EvUpdateAppliedIndex (u64 index)) ;;;
  (fun w => (tt, with_applied (node_update_applied (u64 index) (w_applied w)) w)).

(** [done->Run()]. *)
Definition Run (c : Closure) : M unit :=
  r <- get_response ;; emit (EvRun c r).

(** [node_->GetMetaStore()->TYPE(request, response)]. *)
Definition MetaStoreCall (ty : OperatorType) (req : Request) : M MetaStatusCode :=
  emit (EvMetaStore ty req) ;;;
  (fun w =>
     let '(st, r, ms) := metastore_call ty req (w_response w) (w_metastore w) in
     (st, with_metastore ms (with_response r w))).

(** [brpc::ClosureGuard doneGuard(done); body]: [body] yields its value
    and whether it called [doneGuard.release()]; when the scope is left
    with the guard still armed the closure runs. *)
Definition ClosureGuard {A} (done : Closure) (body : M (A * bool)) : M A :=
  r <- body ;;
  if snd r then ret (fst r) else Run done ;;; ret (fst r).

(** *** Per-operator methods generated by the macros *)

(** [OPERATOR_CAN_BY_PASS_PROPOSE]: overridden to [true] for the six
    read-only operators.  Modelled from the spec: the base-class default
    lives in meta_operator.h and is [false] for every other operator. *)
Definition CanBypassPropose (ty : OperatorType) : bool :=
  match ty with
  | GetDentry | ListDentry | GetInode
  | BatchGetInodeAttr | BatchGetXAttr | GetVolumeExtent => true
  | _ => false
  end.

(** [OPERATOR_REDIRECT]. *)
Definition Redirect (op : MetaOperator) : M unit :=
  modify_response (set_statuscode REDIRECTED).

Definition RedirectRequest (op : MetaOperator) : M unit := Redirect op.

(** [OPERATOR_ON_FAILED]. *)
Definition OnFailed (op : MetaOperator) (code : MetaStatusCode) : M unit :=
  modify_response (set_statuscode code).

(** [OPERATOR_HASH_CODE] and [PARTITION_OPERATOR_HASH_CODE]. *)
Definition HashCode (op : MetaOperator) : Z :=
  match op_type op with
  | CreatePartition => partition_partitionid (request_ op)
  | _ => partitionid (request_ op)
  end.

(** [OPERATOR_TYPE]. *)
Definition GetOperatorType (op : MetaOperator) : OperatorType := op_type op.

(** *** OnApply *)

(** [OPERATOR_ON_APPLY(TYPE)]. *)
Definition OnApply_macro (ty : OperatorType) (op : MetaOperator)
    (index : Z) (done : Closure) (startTimeUs : Z) : M unit :=
  ClosureGuard done (
    timeUs <- GetTimeofDayUs ;;
    emit (EvMetric (WaitInQueueLatency ty (u64 (timeUs - startTimeUs)))) ;;;
    status <- MetaStoreCall ty (request_ op) ;;
    t1 <- GetTimeofDayUs ;;
    emit (EvMetric (ExecuteLatency ty (u64 (t1 - timeUs)))) ;;;
    (if is_OK status then
       UpdateAppliedIndex index ;;;
       applied <- GetAppliedIndex ;;
       modify_response (set_appliedindex (Z.max (u64 index) applied)) ;;;
       t2 <- GetTimeofDayUs ;;
       emit (EvMetric (OnOperatorComplete ty (u64 (t2 - startTimeUs)) true))
     else
       t2 <- GetTimeofDayUs ;;
       emit (EvMetric (OnOperatorComplete ty (u64 (t2 - startTimeUs)) false))) ;;;
    ret (tt, false)).

(** [GetOrModifyS3ChunkInfoOperator::OnApply].  The inner block holds the
    closure guard; it yields the accepted connection when the function
    goes on to stream, and [None] on each early [return]. *)
Definition OnApply_GetOrModifyS3ChunkInfo (op : MetaOperator)
    (index : Z) (done : Closure) (startTimeUs : Z) : M unit :=
  let request := request_ op in
  ms0 <- (fun w => (w_metastore w, w)) ;;
  go <- ClosureGuard done (
    rc <- MetaStoreCall GetOrModifyS3ChunkInfo request ;;
    let iterator := metastore_iterator request ms0 in
    (if is_OK rc then
       UpdateAppliedIndex index ;;;
       applied <- GetAppliedIndex ;;
       modify_response (set_appliedindex (Z.max (u64 index) applied)) ;;;
       t <- GetTimeofDayUs ;;
       emit (EvMetric (OnOperatorComplete GetOrModifyS3ChunkInfo
                         (u64 (t - startTimeUs)) true))
     else
       t <- GetTimeofDayUs ;;
       emit (EvMetric (OnOperatorComplete GetOrModifyS3ChunkInfo
                         (u64 (t - startTimeUs)) false))) ;;;
    if negb (is_OK rc) || negb (returns3chunkinfomap request)
       || negb (supportstreaming request)
    then ret (None, false)
    else
      emit (EvStreamAccept (cntl_ op)) ;;;
      match stream_accept (cntl_ op) with
      | None =>
          modify_response (set_statuscode RPC_STREAM_ERROR) ;;;
          ret (None, false)
      | Some connection => ret (Some (connection, iterator), false)
      end) ;;
  match go with
  | None => ret tt
  | Some (connection, iterator) =>
      emit (EvSendS3ChunkInfoByStream connection iterator)
  end.

(** [GetVolumeExtentOperator::OnApply]. *)
Definition OnApply_GetVolumeExtent (op : MetaOperator)
    (index : Z) (done : Closure) (startTimeUs : Z) : M unit :=
  let request := request_ op in
  ClosureGuard done (
    st <- MetaStoreCall GetVolumeExtent request ;;
    t <- GetTimeofDayUs ;;
    emit (EvMetric (OnOperatorComplete GetVolumeExtent
                      (u64 (t - startTimeUs)) (is_OK st))) ;;;
    if negb (is_OK st) then ret (tt, false)
    else
      modify_response (set_appliedindex (u64 index)) ;;;
      if negb (streaming request) then ret (tt, false)
      else
        (* response->mutable_slices()->Swap(&extents) with extents empty *)
        r <- get_response ;;
        let extents := slices r in
        modify_response clear_slices ;;;
        modify_response clear_slices ;;;
        emit (EvStreamAccept (cntl_ op)) ;;;
        match stream_accept (cntl_ op) with
        | None =>
            modify_response (set_statuscode RPC_STREAM_ERROR) ;;;
            ret (tt, false)
        | Some connection =>
            Run done ;;;
            (* doneGuard.release() *)
            emit (EvStreamingSendVolumeExtent connection extents) ;;;
            ret (tt, true)
        end).

(** Virtual dispatch of [OnApply] on the operator's class. *)
Definition OnApply (op : MetaOperator) (index : Z) (done : Closure)
    (startTimeUs : Z) : M unit :=
  match op_type op with
  | GetOrModifyS3ChunkInfo =>
      OnApply_GetOrModifyS3ChunkInfo op index done startTimeUs
  | GetVolumeExtent => OnApply_GetVolumeExtent op index done startTimeUs
  | ty => OnApply_macro ty op index done startTimeUs
  end.

(** *** Propose *)

(** [MetaOperator::ProposeTask].  Timers and log lines are left out
    here and below: they do not reach the node, the response or the
    closure. *)
Definition ProposeTask (op : MetaOperator) : M bool :=
  match Encode (GetOperatorType op) (request_ op) with
  | None => OnFailed op UNKNOWN_ERROR ;;; ret false
  | Some log =>
      term <- LeaderTerm ;;
      emit (EvNodePropose {| task_data := log;
                             task_done := MetaOperatorClosure (done_id op);
                             expected_term := term |}) ;;;
      ret true
  end.

(** [MetaOperator::FastApplyTask].  [OnApply] takes its index as an
    [int64_t], the node reports a [uint64_t]. *)
Definition FastApplyTask (op : MetaOperator) : M unit :=
  applied <- GetAppliedIndex ;;
  now <- GetTimeofDayUs ;;
  emit (EvApplyQueuePush (HashCode op) (GetOperatorType op)
          {| at_op := op; at_index := i64 applied;
             at_done := MetaOperatorClosure (done_id op);
             at_startTimeUs := now |}).

(** [MetaOperator::Propose]. *)
Definition Propose (op : MetaOperator) : M unit :=
  ClosureGuard (done_ op) (
    leader <- IsLeaderTerm ;;
    if negb leader then RedirectRequest op ;;; ret (tt, false)
    else
      handled <-
        (if CanBypassPropose (op_type op) then
           lease_status <- GetLeaderLeaseStatus ;;
           if IsLeaseLeader lease_status then
             FastApplyTask op ;;; ret (Some true)
           else if IsLeaseExpired lease_status then
             Redirect op ;;; ret (Some false)
           else ret None
         else ret None) ;;
      match handled with
      | Some released => ret (tt, released)
      | None =>
          proposed <- ProposeTask op ;;
          ret (tt, proposed)
      end).

(** The task that [FastApplyTask] pushes for [op] in world [w]. *)
Definition fast_task (op : MetaOperator) (w : World) : ApplyTask :=
  {| at_op := op; at_index := i64 (w_applied w);
     at_done := MetaOperatorClosure (done_id op);
     at_startTimeUs := w_clock w (w_ticks w) |}.

(** The apply queue worker running a task pushed by [FastApplyTask]. *)
Definition run_task (t : ApplyTask) : M unit :=
  OnApply (at_op t) (at_index t) (at_done t) (at_startTimeUs t).

(** *** Views of a trace *)

Definition closure_runs (t : list Event) : list Closure :=
  flat_map (fun e => match e with EvRun c _ => [c] | _ => [] end) t.

Definition proposals (t : list Event) : list RaftTask :=
  flat_map (fun e => match e with EvNodePropose x => [x] | _ => [] end) t.

Definition queued (t : list Event) : list (Z * OperatorType * ApplyTask) :=
  flat_map (fun e => match e with
                     | EvApplyQueuePush h ty x => [(h, ty, x)]
                     | _ => [] end) t.

Definition applied_updates (t : list Event) : list Z :=
  flat_map (fun e => match e with
                     | EvUpdateAppliedIndex i => [i]
                     | _ => [] end) t.

Definition metastore_calls (t : list Event) : list OperatorType :=
  flat_map (fun e => match e with EvMetaStore ty _ => [ty] | _ => [] end) t.

(** What the client can tell apart: a closure completing, or records being
    pushed on a stream. *)
Inductive Visible : Type :=
| Completed (c : Closure) (seen : Response)
| Streamed.

Definition visible (t : list Event) : list Visible :=
  flat_map (fun e => match e with
                     | EvRun c r => [Completed c r]
                     | EvSendS3ChunkInfoByStream _ _ => [Streamed]
                     | EvStreamingSendVolumeExtent _ _ => [Streamed]
                     | _ => [] end) t.

(** The operators of section 4.7 of the design document. *)
Definition mutating (ty : OperatorType) : bool :=
  match ty with
  | CreateDentry | DeleteDentry | CreateInode | UpdateInode | DeleteInode
  | CreateRootInode | CreateManageInode | CreatePartition | DeletePartition
  | PrepareRenameTx | UpdateVolumeExtent | UpdateDeallocatableBlockGroup => true
  | _ => false
  end.

(** The read operators of section 4.8 of the design document. *)
Definition lease_read (ty : OperatorType) : bool :=
  match ty with
  | GetDentry | ListDentry | GetInode | BatchGetInodeAttr | BatchGetXAttr => true
  | _ => false
  end.

End Pipeline.

(** Modelled from the spec: [CopysetNode::UpdateAppliedIndex] is defined
    outside this file; the design document has the applied index advance
    monotonically under it, so that afterwards the stored index is neither
    below the index passed in nor below what was stored before. *)
Definition applied_index_advances `{C : Collaborators} : Prop :=
  forall i a, i <= node_update_applied i a /\ a <= node_update_applied i a.

(** An update that does not exceed the stored index leaves it alone. *)
Definition applied_index_keeps `{C : Collaborators} : Prop :=
  forall i a, i <= a -> node_update_applied i a = a.

(** A small set of collaborators on which the model runs: a metastore that
    answers [OK] with three slices unless the request body is negative, a
    codec that refuses negative partition ids, a node that keeps the larger
    applied index, and a stream server that refuses negative controllers. *)
Definition sample_collaborators : Collaborators := {|
  MetaStoreState := nat;
  metastore_call := fun ty req resp ms =>
    if req_body req <? 0
    then (OtherCode 7, set_statuscode (OtherCode 7) resp, ms)
    else (OK, {| statuscode := Some OK; appliedindex := appliedindex resp;
                 slices := [10; 20; 30]; resp_body := req_body req |}, S ms);
  metastore_iterator := fun req ms => Z.of_nat ms;
  Encode := fun ty req =>
    if partitionid req <? 0 then None else Some [partitionid req; req_body req];
  node_update_applied := Z.max;
  stream_accept := fun cntl => if cntl <? 0 then None else Some (cntl + 100)
|}.

Definition sample_request (pid body : Z) (stream : bool) : Request :=
  {| partitionid := pid; partition_partitionid := pid + 1;
     streaming := stream; returns3chunkinfomap := stream;
     supportstreaming := stream; req_body := body |}.

Definition sample_operator (ty : OperatorType) (pid body : Z) (stream : bool)
  : MetaOperator :=
  {| op_type := ty; request_ := sample_request pid body stream;
     cntl_ := 1; done_id := 7%nat |}.

Definition empty_response : Response :=
  {| statuscode := None; appliedindex := None; slices := []; resp_body := 0 |}.

Definition sample_world (leader : bool) (lease : LeaseStatus) (applied : Z)
  : @World sample_collaborators :=
  @Build_World sample_collaborators
    leader lease 3 applied 0%nat empty_response
    (fun n => 1000 + Z.of_nat n) 0%nat [].

End MetaOp.

(** ** Write-back disk cache uploader (disk_cache_write.cpp) *)

Module DiskCache.

(** A byte of a heap buffer: [None] is a byte that [malloc] handed out and
    nothing has written yet. *)
Definition Cell := option byte.

(** A heap buffer: its (non-null) address and its bytes. *)
Record Buffer : Type := {
  buf_ptr : Z;
  buf_cells : list Cell
}.

(** The callbacks of the file, defunctionalised: the lambda built by
    [UploadFile] with its captures [buffer], [syncTask] and [name].  A
    [shared_ptr<SynchronizationTask>] is [None] when empty. *)
Inductive Callback : Type :=
| UploadFileCb (buffer : Buffer) (syncTask : option nat) (name : string).

(** [PutObjectAsyncContext]. *)
Record PutObjectAsyncContext : Type := {
  key : string;
  buffer : Buffer;
  bufferSize : Z;
  cb : Callback;
  retCode : Z
}.

Definition with_retCode (rc : Z) (c : PutObjectAsyncContext) : PutObjectAsyncContext :=
  {| key := key c; buffer := buffer c; bufferSize := bufferSize c;
     cb := cb c; retCode := rc |}.

Inductive Event : Type :=
| EvStat (path : string)
| EvOpen (path : string)
| EvMalloc (size : Z)
| EvMemset (ptr : Z) (c : byte) (n : Z)
| EvRead (fd : Z) (count : Z)
| EvClose (fd : Z)
| EvFree (ptr : Z)
| EvRemove (path : string)
| EvMoveBack (name : string)
| EvSignal (task : nat)
| EvUploadAsync (context : PutObjectAsyncContext)
| EvCollectMetrics (size : Z)
| EvAsyncContextCollectMetrics (k : string).

(** What the file takes from its surroundings: the POSIX wrapper, the
    members inherited from [DiskCacheBase], and [s3util]. *)
Class Surroundings : Type := {
  GetCacheIoFullDir : string;
  IsFileExist : string -> bool;
  objectPrefix_ : Z;
  metric_ : bool;      (* metric_ != nullptr *)
  s3Metric_ : bool;    (* s3Metric_ != nullptr *)
  (** [stat]: return value and [st_size]. *)
  posix_stat : string -> Z * Z;
  (** [open]: the descriptor, negative on failure. *)
  posix_open : string -> Z;
  (** [malloc]: the address, [None] for NULL. *)
  posix_malloc : Z -> option Z;
  (** [memset]: whether the returned pointer is non-null. *)
  posix_memset : Z -> bool;
  (** [read fd count]: the bytes delivered, [None] for a negative return. *)
  posix_read : Z -> Z -> option (list byte);
  (** [remove]: the return value. *)
  posix_remove : string -> Z;
  (** [curvefs::common::s3util::ValidNameOfInode]. *)
  ValidNameOfInode : string -> string -> Z -> bool
}.

Section Uploader.

Context `{Env : Surroundings}.

(** The object-store client keeps the contexts it was handed and has not
    yet completed. *)
Record World : Type := {
  w_inflight : list PutObjectAsyncContext;
  w_trace : list Event
}.

Definition M (A : Type) : Type := World -> A * World.

Definition ret {A} (a : A) : M A := fun w => (a, w).

Definition bind {A B} (m : M A) (k : A -> M B) : M B :=
  fun w => let (a, w1) := m w in k a w1.

Notation "x <- m ;; k" := (bind m (fun x => k))
  (at level 61, m at next level, right associativity).
Notation "m ;;; k" := (bind m (fun _ => k))
  (at level 61, right associativity).

Definition emit (e : Event) : M unit :=
  fun w => (tt, {| w_inflight := w_inflight w; w_trace := w_trace w ++ [e] |}).

(** [client_->UploadAsync(context)]. *)
Definition UploadAsync (context : PutObjectAsyncContext) : M unit :=
  emit (EvUploadAsync context) ;;;
  (fun w => (tt, {| w_inflight := w_inflight w ++ [context];
                    w_trace := w_trace w |})).

(** *** Heap buffers *)

Definition malloc_cells (size : Z) : list Cell := repeat None (Z.to_nat size).

Definition memset_cells (c : byte) (n : Z) (cells : list Cell) : list Cell :=
  repeat (Some c) (Z.to_nat n) ++ skipn (Z.to_nat n) cells.

Definition read_cells (data : list byte) (cells : list Cell) : list Cell :=
  map Some data ++ skipn (List.length data) cells.

(** The character constant ['0']. *)
Definition char_0 : byte := x30.

(** *** ReadFile *)

(** Outcome of [ReadFile]: [*buf] is assigned only on the path that
    returns 0; [*size] is assigned as soon as [stat] has succeeded. *)
Inductive ReadResult : Type :=
| ReadOk (buf : Buffer) (size : Z)
| ReadErr (ret : Z) (size : option Z).

(** [DiskCacheWrite::ReadFile]. *)
Definition ReadFile (name : string) : M ReadResult :=
  let fileFullPath := (GetCacheIoFullDir ++ "/" ++ name)%string in
  if negb (IsFileExist fileFullPath) then ret (ReadErr (-1) None)
  else
    emit (EvStat fileFullPath) ;;;
    let (sret, st_size) := posix_stat fileFullPath in
    if sret <? 0 then ret (ReadErr (-1) None)
    else
      let fileSize := st_size in
      let size := u64 fileSize in
      emit (EvOpen fileFullPath) ;;;
      let fd := posix_open fileFullPath in
      if fd <? 0 then ret (ReadErr fd (Some size))
      else
        let allocSize := u64 (fileSize * 1 + 1) in
        emit (EvMalloc allocSize) ;;;
        match posix_malloc allocSize with
        | None => emit (EvClose fd) ;;; ret (ReadErr (-1) (Some size))
        | Some ptr =>
            let cells0 := malloc_cells allocSize in
            emit (EvMemset ptr char_0 (u64 (fileSize * 1))) ;;;
            if negb (posix_memset ptr) then
              emit (EvFree ptr) ;;; emit (EvClose fd) ;;;
              ret (ReadErr (-1) (Some size))
            else
              let cells1 := memset_cells char_0 (u64 (fileSize * 1)) cells0 in
              emit (EvRead fd (u64 fileSize)) ;;;
              match posix_read fd (u64 fileSize) with
              | None =>
                  emit (EvFree ptr) ;;; emit (EvClose fd) ;;;
                  ret (ReadErr (-1) (Some size))
              | Some delivered =>
                  let data := firstn (Z.to_nat (u64 fileSize)) delivered in
                  let readLen := Z.of_nat (List.length data) in
                  if readLen <? fileSize then
                    emit (EvFree ptr) ;;; emit (EvClose fd) ;;;
                    ret (ReadErr (-1) (Some size))
                  else
                    emit (EvClose fd) ;;;
                    ret (ReadOk {| buf_ptr := ptr;
                                   buf_cells := read_cells data cells1 |}
                                size)
              end
        end.

(** *** RemoveFile and the upload callback *)

(** [DiskCacheWrite::RemoveFile]. *)
Definition RemoveFile (fileName : string) : M Z :=
  let fullFileName := (GetCacheIoFullDir ++ "/" ++ fileName)%string in
  emit (EvRemove fullFileName) ;;;
  if posix_remove fullFileName <? 0 then ret (-1)
  else emit (EvMoveBack fileName) ;;; ret 0.

Definition Signal (syncTask : option nat) : M unit :=
  match syncTask with
  | Some t => emit (EvSignal t)
  | None => ret tt
  end.

(** The lambda [cb] of [UploadFile], applied to [context]. *)
Definition UploadFile_cb (buf : Buffer) (syncTask : option nat)
    (name : string) (context : PutObjectAsyncContext) : M unit :=
  if 0 <=? retCode context then
    (if metric_ then emit (EvCollectMetrics (bufferSize context)) else ret tt) ;;;
    (if s3Metric_ then emit (EvAsyncContextCollectMetrics (key context))
     else ret tt) ;;;
    RemoveFile (key context) ;;;
    emit (EvFree (buf_ptr buf)) ;;;
    Signal syncTask
  else
    UploadAsync context.

Definition invoke (context : PutObjectAsyncContext) : M unit :=
  match cb context with
  | UploadFileCb buf syncTask name => UploadFile_cb buf syncTask name context
  end.

(** [DiskCacheWrite::UploadFile(name, syncTask)]. *)
Definition UploadFile (name : string) (syncTask : option nat) : M Z :=
  r <- ReadFile name ;;
  match r with
  | ReadErr _ _ =>
      (* buffer is still nullptr: nothing to free *)
      Signal syncTask ;;; ret (-1)
  | ReadOk buf fileSize =>
      let context := {| key := name; buffer := buf; bufferSize := fileSize;
                        cb := UploadFileCb buf syncTask name; retCode := 0 |} in
      UploadAsync context ;;; ret 0
  end.

(** The object-store client finishing its oldest attempt with return code
    [rc]: it stores the code in the context and invokes the callback. *)
Definition client_complete (rc : Z) : M unit :=
  fun w =>
    match w_inflight w with
    | [] => (tt, w)
    | context :: rest =>
        invoke (with_retCode rc context)
               {| w_inflight := rest; w_trace := w_trace w |}
    end.

Fixpoint client_run (rcs : list Z) : M unit :=
  match rcs with
  | [] => ret tt
  | rc :: rest => client_complete rc ;;; client_run rest
  end.

(** *** Views of a trace *)

Definition removes (t : list Event) : list string :=
  flat_map (fun e => match e with EvRemove p => [p] | _ => [] end) t.

Definition frees (t : list Event) : list Z :=
  flat_map (fun e => match e with EvFree p => [p] | _ => [] end) t.

Definition signals (t : list Event) : list nat :=
  flat_map (fun e => match e with EvSignal n => [n] | _ => [] end) t.

Definition submissions (t : list Event) : list PutObjectAsyncContext :=
  flat_map (fun e => match e with EvUploadAsync c => [c] | _ => [] end) t.

Definition memsets (t : list Event) : list (Z * byte * Z) :=
  flat_map (fun e => match e with EvMemset p c n => [(p, c, n)] | _ => [] end) t.

(** *** GetUploadFile *)

(** [std::list::remove_if] with the predicate of [GetUploadFile], which
    appends every element it accepts to [toUpload]: the elements kept and
    the output list afterwards. *)
Fixpoint remove_if_emplace (p : string -> bool) (l : list string)
    (toUpload : list string) : list string * list string :=
  match l with
  | [] => ([], toUpload)
  | filename :: rest =>
      if p filename then remove_if_emplace p rest (toUpload ++ [filename])
      else
        let (kept, out) := remove_if_emplace p rest toUpload in
        (filename :: kept, out)
  end.

Definition string_empty (s : string) : bool :=
  match s with EmptyString => true | _ => false end.

(** [DiskCacheWrite::GetUploadFile(inode, toUpload)]: the return value,
    [waitUpload_] afterwards and [*toUpload] afterwards. *)
Definition GetUploadFile (inode : string) (waitUpload_ toUpload : list string)
  : Z * list string * list string :=
  match waitUpload_ with
  | [] => (0, waitUpload_, toUpload)
  | _ =>
      if string_empty inode then
        (* toUpload->swap(waitUpload_) *)
        (i32 (Z.of_nat (List.length waitUpload_)), toUpload, waitUpload_)
      else
        let (kept, out) :=
          remove_if_emplace
            (fun filename => ValidNameOfInode inode filename objectPrefix_)
            waitUpload_ toUpload in
        (i32 (Z.of_nat (List.length out)), kept, out)
  end.

End Uploader.

(** *** The directory walk of UploadAllCacheWriteFile *)

(** What [opendir(path)] yields: NULL, or a stream of entries that
    [readdir] hands out one by one until it returns NULL, and the value
    that [closedir] returns for it.  Each entry carries its [d_name], its
    [d_type] and what [opendir] yields for [path + '/' + d_name]. *)
Inductive Dir : Type :=
| OpenFails
| Opened (ents : Dirents) (closedir_ret : Z)
with Dirents : Type :=
| NoMore
| Next (d_name : string) (d_type : Z) (target : Dir) (rest : Dirents).

(** [strncmp(a, b, n) == 0] on strings without embedded NUL. *)
Definition strncmp_is0 (a b : string) (n : nat) : bool :=
  String.eqb (substring 0 n a) (substring 0 n b).

(** The lambda [listDir] of [UploadAllCacheWriteFile]; [dir] is what
    [opendir(path)] yields, [cacheObj] the vector so far.  The result is
    the returned flag and the vector afterwards. *)
Fixpoint listDir (path : string) (dir : Dir) (cacheObj : list string)
  : bool * list string :=
  match dir with
  | OpenFails => (false, cacheObj)
  | Opened ents closedir_ret => readdir_loop path ents closedir_ret cacheObj
  end
with readdir_loop (path : string) (ents : Dirents) (closedir_ret : Z)
    (cacheObj : list string) : bool * list string :=
  match ents with
  | NoMore => (0 <=? closedir_ret, cacheObj)
  | Next d_name d_type target rest =>
      if strncmp_is0 d_name "."%string 1 || strncmp_is0 d_name ".."%string 2 then
        readdir_loop path rest closedir_ret cacheObj
      else if d_type =? 8 then
        readdir_loop path rest closedir_ret (cacheObj ++ [d_name])
      else
        let nextdir := (path ++ "/" ++ d_name)%string in
        let (ok, cacheObj1) := listDir nextdir target cacheObj in
        if ok then readdir_loop path rest closedir_ret cacheObj1
        else (false, cacheObj1)
  end.

(** *** Which entries a walk reaches *)

(** [Reach skip dir n]: a regular file ([d_type] 8) whose entry name is [n]
    lies in [dir] or below it, and neither its name nor the name of any
    directory entry on the way down from [dir] satisfies [skip]. *)
Inductive Reach (skip : string -> bool) : Dir -> string -> Prop :=
| Reach_opened ents c n :
    ReachEnts skip ents n -> Reach skip (Opened ents c) n
with ReachEnts (skip : string -> bool) : Dirents -> string -> Prop :=
| Reach_here n d rest :
    skip n = false -> ReachEnts skip (Next n 8 d rest) n
| Reach_below n t d rest n' :
    skip n = false -> t <> 8 -> Reach skip d n' ->
    ReachEnts skip (Next n t d rest) n'
| Reach_later n t d rest n' :
    ReachEnts skip rest n' -> ReachEnts skip (Next n t d rest) n'.

(** The entries [.] and [..]. *)
Definition dot_entry (n : string) : bool :=
  String.eqb n "."%string || String.eqb n ".."%string.

(** Names whose first character is a dot. *)
Definition begins_with_dot (n : string) : bool :=
  match n with
  | String c _ => Ascii.eqb c "."%char
  | EmptyString => false
  end.

(** Mutual induction over directories and their entries. *)
Scheme Dir_mut := Induction for Dir Sort Prop
  with Dirents_mut := Induction for Dirents Sort Prop.

(** What one call of the walk adds to the vector. *)
Definition walk_adds (dir : Dir) (path : string) (cacheObj : list string) : Prop :=
  exists added,
    snd (listDir path dir cacheObj) = (cacheObj ++ added)%list
    /\ (forall n, In n added -> Reach begins_with_dot dir n)
    /\ (fst (listDir path dir cacheObj) = true ->
        forall n, Reach begins_with_dot dir n -> In n added).

Definition loop_adds (ents : Dirents) (path : string) (closedir_ret : Z)
    (cacheObj : list string) : Prop :=
  exists added,
    snd (readdir_loop path ents closedir_ret cacheObj) = (cacheObj ++ added)%list
    /\ (forall n, In n added -> ReachEnts begins_with_dot ents n)
    /\ (fst (readdir_loop path ents closedir_ret cacheObj) = true ->
        forall n, ReachEnts begins_with_dot ents n -> In n added).

(** *** Sample surroundings and a sample cache directory *)

(** Two staged files of three bytes each under /cache: [obj], which reads
    back in full, and [short], whose read delivers one byte only. *)
Definition sample_surroundings : Surroundings := {|
  GetCacheIoFullDir := "/cache"%string;
  IsFileExist := fun p =>
    String.eqb p "/cache/obj"%string || String.eqb p "/cache/short"%string;
  objectPrefix_ := 0;
  metric_ := true;
  s3Metric_ := false;
  posix_stat := fun p => (0, 3);
  posix_open := fun p => if String.eqb p "/cache/obj"%string then 5 else 6;
  posix_malloc := fun size => Some 4096;
  posix_memset := fun ptr => true;
  posix_read := fun fd count =>
    if fd =? 5 then Some [x61; x62; x63] else Some [x61];
  posix_remove := fun p => 0;
  ValidNameOfInode := fun inode filename prefix => String.prefix inode filename
|}.

Definition empty_world : World := {| w_inflight := []; w_trace := [] |}.

(** /cache holding [.], [..], the regular file [top] and the directory
    [sub], which holds the directory [dir], which holds the regular file
    [file]. *)
Definition sample_cache_dir : Dir :=
  Opened
    (Next "."%string 4 OpenFails
    (Next ".."%string 4 OpenFails
    (Next "top"%string 8 OpenFails
    (Next "sub"%string 4
       (Opened
          (Next "."%string 4 OpenFails
          (Next ".."%string 4 OpenFails
          (Next "dir"%string 4
             (Opened
                (Next "."%string 4 OpenFails
                (Next ".."%string 4 OpenFails
                (Next "file"%string 8 OpenFails NoMore))) 0)
             NoMore))) 0)
       NoMore)))) 0.

End DiskCache.

(** ** Replay from the log (meta_operator.cpp, OnApplyFromLog) *)

Module MetaOpReplay.

Import MetaOp.

(** The sample handed to [OnOperatorCompleteFromLog]. *)
Record FromLogSample : Type := {
  fl_type : OperatorType;
  fl_latency : Z;
  fl_success : bool
}.

(** [request.set_returns3chunkinfomap(b)] on a copy of the request. *)
Definition set_returns3chunkinfomap (b : bool) (r : Request) : Request :=
  {| partitionid := partitionid r;
     partition_partitionid := partition_partitionid r;
     streaming := streaming r;
     returns3chunkinfomap := b;
     supportstreaming := supportstreaming r;
     req_body := req_body r |}.

Section Replay.

Context `{C : Collaborators}.

Notation "x <- m ;; k" := (bind m (fun x => k))
  (at level 61, m at next level, right associativity).
Notation "m ;;; k" := (bind m (fun _ => k))
  (at level 61, right associativity).

(** [node_->GetMetaStore()->TYPE(request, &response)] where [response] is
    a local of the caller: the status and the local as the metastore
    leaves it.  The operator's own response is not involved. *)
Definition MetaStoreCallLocal (ty : OperatorType) (req : Request)
    (response : Response) : M (MetaStatusCode * Response) :=
  emit (EvMetaStore ty req) ;;;
  (fun w =>
     let '(st, r, ms) := metastore_call ty req response (w_metastore w) in
     ((st, r), with_metastore ms w)).

(** [OPERATOR_ON_APPLY_FROM_LOG(TYPE)].  The function returns nothing; the
    value of the computation is the list of samples it hands to
    [OnOperatorCompleteFromLog].  [selfGuard] deletes the operator on
    return, which the model does not follow. *)
Definition OnApplyFromLog_macro (ty : OperatorType) (op : MetaOperator)
    (startTimeUs : Z) : M (list FromLogSample) :=
  answer <- MetaStoreCallLocal ty (request_ op) empty_response ;;
  t <- GetTimeofDayUs ;;
  ret [{| fl_type := ty; fl_latency := u64 (t - startTimeUs);
          fl_success := is_OK (fst answer) |}].

(** [GetOrModifyS3ChunkInfoOperator::OnApplyFromLog]. *)
Definition OnApplyFromLog_GetOrModifyS3ChunkInfo (op : MetaOperator)
    (startTimeUs : Z) : M (list FromLogSample) :=
  let request := set_returns3chunkinfomap false (request_ op) in
  answer <- MetaStoreCallLocal GetOrModifyS3ChunkInfo request empty_response ;;
  t <- GetTimeofDayUs ;;
  ret [{| fl_type := GetOrModifyS3ChunkInfo;
          fl_latency := u64 (t - startTimeUs);
          fl_success := is_OK (fst answer) |}].

(** [READONLY_OPERATOR_ON_APPLY_FROM_LOG(TYPE)]. *)
Definition OnApplyFromLog_readonly (op : MetaOperator) (startTimeUs : Z)
  : M (list FromLogSample) :=
  ret [].

(** Virtual dispatch of [OnApplyFromLog]. *)
Definition OnApplyFromLog (op : MetaOperator) (startTimeUs : Z)
  : M (list FromLogSample) :=
  match op_type op with
  | GetDentry | ListDentry | GetInode | BatchGetInodeAttr | BatchGetXAttr
  | GetVolumeExtent => OnApplyFromLog_readonly op startTimeUs
  | GetOrModifyS3ChunkInfo =>
      OnApplyFromLog_GetOrModifyS3ChunkInfo op startTimeUs
  | ty => OnApplyFromLog_macro ty op startTimeUs
  end.

(** The requests that reached the metastore, with the method called. *)
Definition metastore_requests (t : list Event) : list (OperatorType * Request) :=
  flat_map (fun e => match e with
                     | EvMetaStore ty req => [(ty, req)]
                     | _ => [] end) t.

(** The controllers on which a stream accept was attempted. *)
Definition stream_accepts (t : list Event) : list Controller :=
  flat_map (fun e => match e with EvStreamAccept c => [c] | _ => [] end) t.

(** The samples handed to the metric sink by the live path. *)
Definition metrics (t : list Event) : list Metric :=
  flat_map (fun e => match e with EvMetric m => [m] | _ => [] end) t.

(** The operators instantiated from [OPERATOR_ON_APPLY]. *)
Definition macro_on_apply (ty : OperatorType) : bool :=
  match ty with
  | GetOrModifyS3ChunkInfo | GetVolumeExtent => false
  | _ => true
  end.

End Replay.

End MetaOpReplay.

(** ** More of the disk cache uploader (disk_cache_write.cpp) *)

Module DiskCacheMore.

Import DiskCache.

Section Uploader.

Context `{Env : Surroundings}.

Notation "x <- m ;; k" := (bind m (fun x => k))
  (at level 61, m at next level, right associativity).
Notation "m ;;; k" := (bind m (fun _ => k))
  (at level 61, right associativity).

(** [DiskCacheWrite::AsyncUploadEnqueue]: [waitUpload_] afterwards. *)
Definition AsyncUploadEnqueue (objName : string) (waitUpload_ : list string)
  : list string :=
  waitUpload_ ++ [objName].




(** *** Views of a trace *)

Definition closes (t : list Event) : list Z :=
  flat_map (fun e => match e with EvClose fd => [fd] | _ => [] end) t.

(** The descriptors that [open] handed out. *)
Definition opened (t : list Event) : list Z :=
  flat_map (fun e => match e with
                     | EvOpen path =>
                         if posix_open path <? 0 then [] else [posix_open path]
                     | _ => [] end) t.

(** The addresses that [malloc] handed out. *)
Definition allocated (t : list Event) : list Z :=
  flat_map (fun e => match e with
                     | EvMalloc size =>
                         match posix_malloc size with
                         | Some ptr => [ptr]
                         | None => []
                         end
                     | _ => [] end) t.

Definition moved_back (t : list Event) : list string :=
  flat_map (fun e => match e with EvMoveBack n => [n] | _ => [] end) t.



End Uploader.

(** *** WriteDiskFile *)

Inductive WriteEvent : Type :=
| WrCreateDir (path : string)
| WrOpen (path : string)
| WrWrite (fd : Z) (buf : list byte) (length : Z)
| WrFdatasync (fd : Z)
| WrClose (fd : Z).

(** What [WriteDiskFile] takes from the POSIX wrapper and from
    [DiskCacheBase], beside the members above. *)
Class WriteSurroundings : Type := {
  (** [DiskCacheBase::CreateDir]: the return value. *)
  CreateDir : string -> Z;
  (** [open(path, O_RDWR | O_CREAT, MODE)]: the descriptor. *)
  posix_open_create : string -> Z;
  (** [write(fd, buf, length)]: the return value. *)
  posix_write : Z -> list byte -> Z -> Z;
  (** [fdatasync(fd)]: the return value. *)
  posix_fdatasync : Z -> Z;
  (** [close(fd)]: the return value. *)
  posix_close : Z -> Z
}.

Section Writer.

Context `{Env : Surroundings} `{Wr : WriteSurroundings}.

(** [DiskCacheWrite::WriteDiskFile(fileName, buf, length, force)]: the
    return value and the calls made, in order.  [length] is a
    [uint64_t]; the function returns an [int]. *)
Definition WriteDiskFile (fileName : string) (buf : list byte) (length : Z)
    (force : bool) : Z * list WriteEvent :=
  let fileFullPath := (GetCacheIoFullDir ++ "/" ++ fileName)%string in
  let dir_events :=
    if objectPrefix_ =? 0 then [] else [WrCreateDir fileFullPath] in
  if negb (objectPrefix_ =? 0) && (CreateDir fileFullPath <? 0)
  then (-1, dir_events)
  else
    let fd := posix_open_create fileFullPath in
    if fd <? 0 then (fd, dir_events ++ [WrOpen fileFullPath])
    else
      let writeLen := posix_write fd buf length in
      let written := dir_events ++ [WrOpen fileFullPath; WrWrite fd buf length] in
      if writeLen <? i64 length then (-1, written ++ [WrClose fd])
      else
        if force && (posix_fdatasync fd <? 0)
        then (-1, written ++ [WrFdatasync fd; WrClose fd])
        else
          let synced := if force then written ++ [WrFdatasync fd] else written in
          if posix_close fd <? 0 then (-1, synced ++ [WrClose fd])
          else (i32 writeLen, synced ++ [WrClose fd]).

Definition write_closes (t : list WriteEvent) : list Z :=
  flat_map (fun e => match e with WrClose fd => [fd] | _ => [] end) t.

Definition write_opened (t : list WriteEvent) : list Z :=
  flat_map (fun e => match e with
                     | WrOpen path =>
                         if posix_open_create path <? 0 then []
                         else [posix_open_create path]
                     | _ => [] end) t.

Definition write_syncs (t : list WriteEvent) : list Z :=
  flat_map (fun e => match e with WrFdatasync fd => [fd] | _ => [] end) t.

Definition write_writes (t : list WriteEvent) : list (Z * list byte * Z) :=
  flat_map (fun e => match e with
                     | WrWrite fd buf n => [(fd, buf, n)]
                     | _ => [] end) t.

End Writer.

(** A wrapper whose [write] stops after 2 bytes on descriptor 6 and whose
    [fdatasync] fails on descriptor 7; /cache/full opens as 5, /cache/part
    as 6, /cache/nosync as 7, anything else fails to open. *)
Definition sample_write_surroundings : WriteSurroundings := {|
  CreateDir := fun path => 0;
  posix_open_create := fun path =>
    if String.eqb path "/cache/full"%string then 5
    else if String.eqb path "/cache/part"%string then 6
    else if String.eqb path "/cache/nosync"%string then 7
    else -1;
  posix_write := fun fd buf length => if fd =? 6 then 2 else length;
  posix_fdatasync := fun fd => if fd =? 7 then -1 else 0;
  posix_close := fun fd => 0
|}.

End DiskCacheMore.

(** ** Starting and stopping the uploader thread (disk_cache_write.cpp) *)

Module Lifecycle.

Inductive ThreadEvent : Type :=
| Spawned       (* backEndThread_ = std::thread(AsyncUploadFunc) *)
| Interrupted   (* sleeper_.interrupt() *)
| Joined.       (* backEndThread_.join() *)

Record Uploader : Type := {
  isRunning_ : bool;
  waitUpload_ : list string;
  thread_events : list ThreadEvent
}.

(** [DiskCacheWrite::AsyncUploadRun]. *)
Definition AsyncUploadRun (u : Uploader) : Z * Uploader :=
  if isRunning_ u then (-1, u)
  else (0, {| isRunning_ := true; waitUpload_ := waitUpload_ u;
              thread_events := thread_events u ++ [Spawned] |}).

(** [DiskCacheWrite::AsyncUploadStop].  While the uploader runs and the
    queue is not empty the function sits in its wait loop, which only
    another thread can end: that is [None]. *)
Definition AsyncUploadStop (u : Uploader) : option (Z * Uploader) :=
  if isRunning_ u then
    match waitUpload_ u with
    | _ :: _ => None
    | [] =>
        Some (-1, {| isRunning_ := false; waitUpload_ := waitUpload_ u;
                     thread_events :=
                       thread_events u ++ [Interrupted; Joined] |})
    end
  else Some (0, u).

Inductive Call : Type := Run | Stop.

(** A sequence of calls made one after the other, with what each
    returned. *)
Fixpoint calls (cs : list Call) (u : Uploader)
  : option (list (Call * Z) * Uploader) :=
  match cs with
  | [] => Some ([], u)
  | Run :: rest =>
      let (ret, u1) := AsyncUploadRun u in
      match calls rest u1 with
      | Some (rets, u2) => Some ((Run, ret) :: rets, u2)
      | None => None
      end
  | Stop :: rest =>
      match AsyncUploadStop u with
      | None => None
      | Some (ret, u1) =>
          match calls rest u1 with
          | Some (rets, u2) => Some ((Stop, ret) :: rets, u2)
          | None => None
          end
      end
  end.

Definition count_event (e : ThreadEvent) (t : list ThreadEvent) : nat :=
  List.length (filter (fun x => match x, e with
                                | Spawned, Spawned | Interrupted, Interrupted
                                | Joined, Joined => true
                                | _, _ => false
                                end) t).

Definition count_return (c : Call) (ret : Z) (rets : list (Call * Z)) : nat :=
  List.length (filter (fun x => match fst x, c with
                                | Run, Run | Stop, Stop => snd x =? ret
                                | _, _ => false
                                end) rets).

(** The uploader threads in existence. *)
Definition alive (u : Uploader) : nat := if isRunning_ u then 1%nat else 0%nat.

Definition fresh_uploader : Uploader :=
  {| isRunning_ := false; waitUpload_ := []; thread_events := [] |}.

End Lifecycle.

(** ** UploadAllCacheWriteFile (disk_cache_write.cpp) *)

Module UploadAll.

Import DiskCache.

(** The context built by [UploadAllCacheWriteFile]; its callback is always
    the lambda of that function, which captures [buffer]. *)
Record AllContext : Type := {
  a_key : string;
  a_buffer : Buffer;
  a_bufferSize : Z;
  a_retCode : Z
}.

Definition a_with_retCode (rc : Z) (c : AllContext) : AllContext :=
  {| a_key := a_key c; a_buffer := a_buffer c;
     a_bufferSize := a_bufferSize c; a_retCode := rc |}.

Inductive AllEvent : Type :=
| Base (e : Event)            (* a call made inside ReadFile or RemoveFile *)
| AllUploadAsync (context : AllContext)
| AllCollectMetrics (size : Z)
| AllAsyncContextCollectMetrics (k : string)
| CondSignal
| CondWait
| AllFree (ptr : Z).

(** [curvefs::common::s3util::GenPathByObjName]. *)
Class PathSurroundings : Type := {
  GenPathByObjName : string -> Z -> string
}.

(** The locals that the callbacks share with the function
    ([pendingReq]), the contexts the object-store client holds, and the
    trace. *)
Record AllWorld : Type := {
  pendingReq : Z;
  a_inflight : list AllContext;
  a_trace : list AllEvent
}.

(** What the object-store client does on its own threads while
    [UploadAllCacheWriteFile] runs: the attempts it finishes before each
    turn of the loop, those it finishes between the loop and the load of
    [pendingReq], and those it finishes while the function waits.  An
    attempt is named by its position among the contexts the client holds
    and finishes with a return code.  A turn of the loop touches what it
    shares with the callbacks in one step, its [fetch_sub] or its
    [UploadAsync], so an attempt finished during a turn counts with those
    before it or with those after it. *)
Record Client : Type := {
  during_loop : list (list (nat * Z));
  before_load : list (nat * Z);
  during_wait : list (nat * Z)
}.

Section Flush.

Context `{Env : Surroundings} `{Paths : PathSurroundings}.

Definition AM (A : Type) : Type := AllWorld -> A * AllWorld.

Definition aret {A} (a : A) : AM A := fun w => (a, w).

Definition abind {A B} (m : AM A) (k : A -> AM B) : AM B :=
  fun w => let (a, w1) := m w in k a w1.

Notation "x <- m ;; k" := (abind m (fun x => k))
  (at level 61, m at next level, right associativity).
Notation "m ;;; k" := (abind m (fun _ => k))
  (at level 61, right associativity).

Definition aemit (e : AllEvent) : AM unit :=
  fun w => (tt, {| pendingReq := pendingReq w; a_inflight := a_inflight w;
                   a_trace := a_trace w ++ [e] |}).

(** A member function of the file run from here: the calls it makes are
    appended to the trace. *)
Definition lift {A} (m : M A) : AM A :=
  fun w =>
    let (a, w1) := m {| w_inflight := []; w_trace := [] |} in
    (a, {| pendingReq := pendingReq w; a_inflight := a_inflight w;
           a_trace := a_trace w ++ map Base (w_trace w1) |}).

(** [pendingReq.fetch_add(n)] and [pendingReq.fetch_sub(n)] on the
    [std::atomic<uint64_t>]: the value before. *)
Definition fetch_add (n : Z) : AM Z :=
  fun w => (pendingReq w,
            {| pendingReq := u64 (pendingReq w + n);
               a_inflight := a_inflight w; a_trace := a_trace w |}).

Definition fetch_sub (n : Z) : AM Z :=
  fun w => (pendingReq w,
            {| pendingReq := u64 (pendingReq w - n);
               a_inflight := a_inflight w; a_trace := a_trace w |}).

Definition load : AM Z := fun w => (pendingReq w, w).

(** [client_->UploadAsync(context)]. *)
Definition AllUpload (context : AllContext) : AM unit :=
  aemit (AllUploadAsync context) ;;;
  (fun w => (tt, {| pendingReq := pendingReq w;
                    a_inflight := a_inflight w ++ [context];
                    a_trace := a_trace w |})).

(** The lambda [cb] of [UploadAllCacheWriteFile], applied to [context].
    With [s3Metric_] set the source reads through [metric_] without
    testing it; the model follows the path where that pointer is good. *)
Definition UploadAll_cb (buf : Buffer) (context : AllContext) : AM unit :=
  if 0 <=? a_retCode context then
    (if s3Metric_ then
       aemit (AllCollectMetrics (a_bufferSize context)) ;;;
       aemit (AllAsyncContextCollectMetrics (a_key context))
     else aret tt) ;;;
    before <- fetch_sub 1 ;;
    (if before =? 1 then aemit CondSignal else aret tt) ;;;
    aemit (AllFree (buf_ptr buf))
  else
    AllUpload context.

(** One turn of the loop over [uploadObjs]. *)
Definition submit_one (name : string) : AM unit :=
  r <- lift (ReadFile name) ;;
  match r with
  | ReadErr _ _ =>
      (* buffer is still nullptr: nothing to free *)
      fetch_sub 1 ;;; aret tt
  | ReadOk buf fileSize =>
      AllUpload {| a_key := GenPathByObjName name objectPrefix_;
                   a_buffer := buf; a_bufferSize := fileSize;
                   a_retCode := 0 |}
  end.

Fixpoint for_each {A} (f : A -> AM unit) (l : list A) : AM unit :=
  match l with
  | [] => aret tt
  | x :: rest => f x ;;; for_each f rest
  end.

(** The second pass of [UploadAllCacheWriteFile], from after the wait to
    the end. *)
Definition UploadAll_finish (uploadObjs : list string) : AM Z :=
  for_each (fun name => lift (RemoveFile name) ;;; aret tt) uploadObjs ;;;
  aret 0.

(** The object-store client finishing the attempt at position [i] of the
    contexts it holds, with return code [rc]. *)
Definition all_complete_at (i : nat) (rc : Z) : AM unit :=
  fun w =>
    match nth_error (a_inflight w) i with
    | None => (tt, w)
    | Some context =>
        UploadAll_cb (a_buffer context) (a_with_retCode rc context)
          {| pendingReq := pendingReq w;
             a_inflight := firstn i (a_inflight w)
                           ++ skipn (S i) (a_inflight w);
             a_trace := a_trace w |}
    end.

(** The attempts the client finishes, one after the other. *)
Fixpoint client_does (attempts : list (nat * Z)) : AM unit :=
  match attempts with
  | [] => aret tt
  | (i, rc) :: rest => all_complete_at i rc ;;; client_does rest
  end.

(** The loop over [uploadObjs], the client finishing the attempts of
    [arrivals] before each turn. *)
Fixpoint upload_loop (uploadObjs : list string)
    (arrivals : list (list (nat * Z))) : AM unit :=
  match uploadObjs with
  | [] => aret tt
  | name :: rest =>
      client_does (hd [] arrivals) ;;;
      submit_one name ;;;
      upload_loop rest (tl arrivals)
  end.

(** The number of [cond.Signal()] calls in a trace. *)
Definition cond_signals (t : list AllEvent) : nat :=
  List.length (filter (fun e => match e with CondSignal => true | _ => false end) t).

(** [std::atomic<uint64_t> pendingReq(0)]. *)
Definition new_pendingReq : AM unit :=
  fun w => (tt, {| pendingReq := 0; a_inflight := a_inflight w;
                   a_trace := a_trace w |}).

(** [cond.Wait()] on the [CountDownEvent cond(1)] of this call, the trace
    having been [entry] when the call began: the wait is over once
    [cond.Signal()] has been called. *)
Definition cond_Wait_over (entry : list AllEvent) : AM bool :=
  fun w => (Nat.ltb (cond_signals entry) (cond_signals (a_trace w)), w).

(** [DiskCacheWrite::UploadAllCacheWriteFile], with the object-store
    client running beside it.  [root] is what [opendir] yields for the
    cache directory.  The result is [None] when the function is still in
    [cond.Wait()] after the client has finished all the attempts of
    [client]. *)
Definition UploadAllCacheWriteFile (root : Dir) (client : Client)
  : AM (option Z) :=
  fun w0 =>
    let fileFullPath := GetCacheIoFullDir in
    if negb (IsFileExist fileFullPath) then (Some (-1), w0)
    else
      let (ok, uploadObjs) := listDir fileFullPath root [] in
      if negb ok then (Some (-1), w0)
      else
        match uploadObjs with
        | [] => (Some 0, w0)
        | _ =>
            (new_pendingReq ;;;
             fetch_add (u64 (Z.of_nat (List.length uploadObjs))) ;;;
             upload_loop uploadObjs (during_loop client) ;;;
             client_does (before_load client) ;;;
             p <- load ;;
             woken <- (if p =? 0 then aret true
                       else
                         aemit CondWait ;;;
                         client_does (during_wait client) ;;;
                         cond_Wait_over (a_trace w0)) ;;
             if woken : bool
             then r <- UploadAll_finish uploadObjs ;; aret (Some r)
             else aret None) w0
        end.

(** What can happen next while the function is in its loop or waiting:
    the loop takes its next turn, or the client finishes an attempt. *)
Inductive Action : Type :=
| Turn
| Complete (i : nat) (rc : Z).

Definition act (a : Action) (s : list string * AllWorld)
  : list string * AllWorld :=
  match a with
  | Turn =>
      match fst s with
      | [] => s
      | name :: rest => (rest, snd (submit_one name (snd s)))
      end
  | Complete i rc => (fst s, snd (all_complete_at i rc (snd s)))
  end.

Definition interleave (actions : list Action) (s : list string * AllWorld)
  : list string * AllWorld :=
  fold_left (fun s a => act a s) actions s.



(** *** Views of a trace *)

Definition all_submissions (t : list AllEvent) : list AllContext :=
  flat_map (fun e => match e with AllUploadAsync c => [c] | _ => [] end) t.

Definition all_removes (t : list AllEvent) : list string :=
  flat_map (fun e => match e with Base (EvRemove p) => [p] | _ => [] end) t.

Definition all_frees (t : list AllEvent) : list Z :=
  flat_map (fun e => match e with AllFree p => [p] | _ => [] end) t.

(** Whether [ReadFile] succeeds on a name. *)
Definition readable (name : string) : bool :=
  match fst (ReadFile name {| w_inflight := []; w_trace := [] |}) with
  | ReadOk _ _ => true
  | ReadErr _ _ => false
  end.

(** A context whose key was generated from a listed name that [ReadFile]
    can read. *)
Definition key_of_listed (objs : list string) (c : AllContext) : Prop :=
  exists name,
    In name objs /\ readable name = true
    /\ a_key c = GenPathByObjName name objectPrefix_.

(** What holds of the names still to go and of the world while the loop
    runs and the client completes uploads, [t0] being the trace when the
    loop was entered. *)
Definition flush_invariant (objs : list string) (t0 : list AllEvent)
    (s : list string * AllWorld) : Prop :=
  exists evs,
    a_trace (snd s) = t0 ++ evs
    /\ pendingReq (snd s)
       = Z.of_nat (List.length (fst s) + List.length (a_inflight (snd s)))
    /\ pendingReq (snd s) < 2 ^ 64
    /\ (cond_signals evs = 0%nat
        \/ (cond_signals evs = 1%nat /\ pendingReq (snd s) = 0))
    /\ all_removes evs = []
    /\ Forall (key_of_listed objs) (all_submissions evs)
    /\ Forall (key_of_listed objs) (a_inflight (snd s))
    /\ Forall (fun n => In n objs) (fst s).

(** A context on its first attempt: the loop submits every context with
    return code 0, the callback re-submits it carrying the negative code
    of the attempt that failed. *)
Definition first_attempt (c : AllContext) : bool := a_retCode c =? 0.

(** The submissions made by the loop itself. *)
Definition loop_submissions (t : list AllEvent) : list AllContext :=
  filter first_attempt (all_submissions t).


(** The loop is over and the latch has not been signalled while
    [pendingReq] was still to reach zero by a callback. *)
Definition latch_tracks (t0 : list AllEvent) (s : list string * AllWorld)
  : Prop :=
  fst s = []
  /\ forall evs, a_trace (snd s) = t0 ++ evs ->
                 cond_signals evs = 0%nat -> pendingReq (snd s) <> 0.

(** The world in which the loop over [uploadObjs] is entered. *)
Definition loop_entry (objs : list string) (t0 : list AllEvent) : AllWorld :=
  {| pendingReq := Z.of_nat (List.length objs); a_inflight := [];
     a_trace := t0 |}.

Definition fresh_world : AllWorld :=
  {| pendingReq := 0; a_inflight := []; a_trace := [] |}.

End Flush.

Definition sample_paths : PathSurroundings :=
  {| GenPathByObjName := fun name prefix => ("k/" ++ name)%string |}.


(** Surroundings in which the cache directory /cache exists and holds the
    three-byte file [obj]. *)
Definition sample_flush_surroundings : Surroundings := {|
  GetCacheIoFullDir := "/cache"%string;
  IsFileExist := fun p =>
    String.eqb p "/cache"%string || String.eqb p "/cache/obj"%string;
  objectPrefix_ := 0;
  metric_ := true;
  s3Metric_ := true;
  posix_stat := fun p => (0, 3);
  posix_open := fun p => 5;
  posix_malloc := fun size => Some 4096;
  posix_memset := fun ptr => true;
  posix_read := fun fd count => Some [x61; x62; x63];
  posix_remove := fun p => if String.eqb p "/cache/obj"%string then 0 else -1;
  ValidNameOfInode := fun inode filename prefix => String.prefix inode filename
|}.

(** Surroundings in which the cache directory /cache holds the file [top]
    and, two directories down, the file sub/dir/file; nothing else exists,
    and in particular no /cache/file. *)
Definition sample_nested_surroundings : Surroundings := {|
  GetCacheIoFullDir := "/cache"%string;
  IsFileExist := fun p =>
    String.eqb p "/cache"%string || String.eqb p "/cache/top"%string
    || String.eqb p "/cache/sub/dir/file"%string;
  objectPrefix_ := 0;
  metric_ := true;
  s3Metric_ := true;
  posix_stat := fun p => (0, 3);
  posix_open := fun p => 5;
  posix_malloc := fun size => Some 4096;
  posix_memset := fun ptr => true;
  posix_read := fun fd count => Some [x61; x62; x63];
  posix_remove := fun p =>
    if String.eqb p "/cache/top"%string
       || String.eqb p "/cache/sub/dir/file"%string then 0 else -1;
  ValidNameOfInode := fun inode filename prefix => String.prefix inode filename
|}.

(** A client that lets the first upload fail once during the loop and
    succeed while the function waits. *)
Definition sample_client : Client :=
  {| during_loop := [[]; [(0%nat, -1)]];
     before_load := [];
     during_wait := [(0%nat, 0)] |}.

(** A client that finishes nothing. *)
Definition idle_client : Client :=
  {| during_loop := []; before_load := []; during_wait := [] |}.

End UploadAll.

(** * Facts about machine integers *)

Lemma u64_small (z : Z) : 0 <= z < 2 ^ 64 -> u64 z = z.
Proof. intros H. unfold u64. apply Z.mod_small. exact H. Qed.

(** * Properties of the operator pipeline *)

Module MetaOpProofs.

Import MetaOp.

Section Facts.

Context `{C : Collaborators}.

Lemma view_app {A} (f : Event -> list A) (t1 t2 : list Event) :
  flat_map f (t1 ++ t2) = flat_map f t1 ++ flat_map f t2.
Proof. apply flat_map_app. Qed.

Lemma u64_i64 (a : Z) : in_u64 a -> u64 (i64 a) = a.
Proof.
  unfold in_u64, u64, i64. intros Ha.
  rewrite Zminus_mod_idemp_l.
  replace (a + 2 ^ 63 - 2 ^ 63) with a by lia.
  apply Z.mod_small. exact Ha.
Qed.

Lemma u64_ge (i : Z) : i < 2 ^ 64 -> i <= u64 i.
Proof.
  unfold u64. intros Hi.
  destruct (Z_lt_le_dec i 0) as [Hneg | Hpos].
  - pose proof (Z.mod_pos_bound i (2 ^ 64) ltac:(lia)). lia.
  - rewrite Z.mod_small by lia. lia.
Qed.

(** Symbolic execution of the model: unfold the monad and the methods. *)
Ltac run_model :=
  cbv [Propose ClosureGuard ProposeTask FastApplyTask Redirect RedirectRequest
       OnFailed OnApply OnApply_macro OnApply_GetOrModifyS3ChunkInfo
       OnApply_GetVolumeExtent MetaStoreCall UpdateAppliedIndex Run
       GetAppliedIndex GetTimeofDayUs LeaderTerm GetLeaderLeaseStatus
       IsLeaderTerm modify_response get_response emit bind ret run_task
       GetOperatorType done_
       with_trace with_response with_applied with_metastore with_ticks
       w_is_leader_term w_lease_status w_leader_term w_applied w_metastore
       w_response w_clock w_ticks w_trace fst snd];
  simpl.

Ltac tidy_trace :=
  repeat rewrite <- app_assoc; simpl;
  unfold proposals, queued, closure_runs, applied_updates, metastore_calls,
    visible;
  repeat rewrite view_app; simpl;
  repeat rewrite app_nil_r.

(** C1.  A read-only operator (GetDentry, ListDentry, GetInode,
    BatchGetInodeAttr, BatchGetXAttr, GetVolumeExtent) proposed on the
    leader of the current term: under [LeaseLeader] the only call that
    leaves Propose is the push of one fast-apply task on the apply queue,
    so nothing is proposed to the node and the response is untouched;
    under [LeaseExpired] the response status becomes REDIRECTED, the RPC
    closure runs, and nothing is proposed, queued or sent to the
    metastore. *)
Theorem read_only_propose_by_lease (op : MetaOperator) (w : World) :
  In (op_type op)
     [GetDentry; ListDentry; GetInode; BatchGetInodeAttr; BatchGetXAttr;
      GetVolumeExtent] ->
  w_is_leader_term w = true ->
  let w' := snd (Propose op w) in
  (w_lease_status w = LeaseLeader ->
     w_trace w' =
       w_trace w ++ [EvApplyQueuePush (HashCode op) (op_type op) (fast_task op w)]
     /\ proposals (w_trace w') = proposals (w_trace w)
     /\ queued (w_trace w') =
          queued (w_trace w) ++ [(HashCode op, op_type op, fast_task op w)]
     /\ w_response w' = w_response w)
  /\
  (w_lease_status w = LeaseExpired ->
     statuscode (w_response w') = Some REDIRECTED
     /\ w_trace w' =
          w_trace w ++ [EvRun (done_ op) (set_statuscode REDIRECTED (w_response w))]
     /\ proposals (w_trace w') = proposals (w_trace w)
     /\ queued (w_trace w') = queued (w_trace w)
     /\ metastore_calls (w_trace w') = metastore_calls (w_trace w)).
Proof.
  intros Hro Hleader.
  assert (Hby : CanBypassPropose (op_type op) = true).
  { simpl in Hro.
    repeat (destruct Hro as [Hro | Hro]; [rewrite <- Hro; reflexivity |]).
    contradiction. }
  destruct w as [ldr lease term applied ms resp clock ticks tr].
  simpl in Hleader. subst ldr.
  cbv zeta. split; intros Hlease; simpl in Hlease; subst lease;
    run_model; rewrite Hby; simpl; tidy_trace; repeat split.
Qed.

(** C2.  OnApply of a mutating operator whose metastore call returns OK:
    UpdateAppliedIndex is called once with the index, the response carries
    max(index, applied index reported after the update), which is at least
    the index; and on a node whose applied index advances under the update
    the node's applied index after the call is at least the index too. *)
Theorem mutating_on_apply_advances (op : MetaOperator) (index : Z)
    (done : Closure) (startTimeUs : Z) (w : World) :
  mutating (op_type op) = true ->
  in_i64 index ->
  fst (fst (metastore_call (op_type op) (request_ op)
              (w_response w) (w_metastore w))) = OK ->
  let w' := snd (OnApply op index done startTimeUs w) in
  applied_updates (w_trace w') = applied_updates (w_trace w) ++ [u64 index]
  /\ w_applied w' = node_update_applied (u64 index) (w_applied w)
  /\ appliedindex (w_response w') = Some (Z.max (u64 index) (w_applied w'))
  /\ (0 <= index ->
      appliedindex (w_response w') = Some (Z.max index (w_applied w')))
  /\ (exists a, appliedindex (w_response w') = Some a /\ index <= a)
  /\ (applied_index_advances -> index <= w_applied w').
Proof.
  intros Hmut Hidx Hok.
  assert (Hle : index <= u64 index).
  { apply u64_ge. unfold in_i64 in Hidx. lia. }
  destruct w as [ldr lease term applied ms resp clock ticks tr].
  simpl in Hok. cbv zeta.
  unfold OnApply.
  destruct (op_type op) eqn:Hty; try discriminate Hmut;
    run_model;
    destruct (metastore_call _ (request_ op) resp ms) as [[st r] ms'];
    simpl in Hok; subst st; simpl; tidy_trace;
    (split; [reflexivity |]);
    (split; [reflexivity |]);
    (split; [reflexivity |]);
    (split;
     [ intros Hpos; rewrite (u64_small index) by (unfold in_i64 in Hidx; lia);
       reflexivity |]);
    (split;
     [ eexists; split; [reflexivity | lia]
     | intros Hadv; destruct (Hadv (u64 index) applied); lia ]).
Qed.

(** C4.  Propose on the propose-through-log path (the operator cannot
    bypass the log, or the lease is neither held nor expired) with a codec
    that fails: the response status is UNKNOWN_ERROR, nothing is proposed
    to the node, and the RPC closure runs exactly once. *)
Theorem propose_encode_failure (op : MetaOperator) (w : World) :
  w_is_leader_term w = true ->
  CanBypassPropose (op_type op) = false
  \/ w_lease_status w = LeaseNotReady
  \/ w_lease_status w = LeaseDisabled ->
  Encode (op_type op) (request_ op) = None ->
  let w' := snd (Propose op w) in
  statuscode (w_response w') = Some UNKNOWN_ERROR
  /\ proposals (w_trace w') = proposals (w_trace w)
  /\ queued (w_trace w') = queued (w_trace w)
  /\ closure_runs (w_trace w') = closure_runs (w_trace w) ++ [done_ op]
  /\ w_trace w' =
       w_trace w ++
       [EvRun (done_ op) (set_statuscode UNKNOWN_ERROR (w_response w))].
Proof.
  intros Hleader Hpath Henc.
  destruct w as [ldr lease term applied ms resp clock ticks tr].
  simpl in Hleader, Hpath. subst ldr. cbv zeta.
  run_model. rewrite Henc.
  destruct Hpath as [Hby | [Hlease | Hlease]].
  - rewrite Hby. simpl. tidy_trace. repeat split.
  - subst lease. destruct (CanBypassPropose (op_type op));
      simpl; tidy_trace; repeat split.
  - subst lease. destruct (CanBypassPropose (op_type op));
      simpl; tidy_trace; repeat split.
Qed.

(** C6.  OnApply of GetVolumeExtent with streaming requested and a
    metastore result of OK.  When the stream is accepted, the slices that
    the metastore produced are taken out of the response, the closure runs
    while the response holds no slices, and only then are the extents
    pushed on the stream; when the accept fails, the response gets
    RPC_STREAM_ERROR, the closure runs once and nothing is streamed. *)
Theorem get_volume_extent_streaming (op : MetaOperator) (index : Z)
    (done : Closure) (startTimeUs : Z) (w : World)
    (r : Response) (ms : MetaStoreState) :
  op_type op = GetVolumeExtent ->
  streaming (request_ op) = true ->
  metastore_call GetVolumeExtent (request_ op) (w_response w) (w_metastore w)
    = (OK, r, ms) ->
  let w' := snd (OnApply op index done startTimeUs w) in
  let seen := clear_slices (clear_slices (set_appliedindex (u64 index) r)) in
  (forall connection, stream_accept (cntl_ op) = Some connection ->
     w_trace w' =
       w_trace w ++
       [EvMetaStore GetVolumeExtent (request_ op);
        EvMetric (OnOperatorComplete GetVolumeExtent
                    (u64 (w_clock w (w_ticks w) - startTimeUs)) true);
        EvStreamAccept (cntl_ op);
        EvRun done seen;
        EvStreamingSendVolumeExtent connection (slices r)]
     /\ slices seen = []
     /\ slices (w_response w') = []
     /\ visible (w_trace w') =
          visible (w_trace w) ++ [Completed done seen; Streamed])
  /\
  (stream_accept (cntl_ op) = None ->
     statuscode (w_response w') = Some RPC_STREAM_ERROR
     /\ visible (w_trace w') =
          visible (w_trace w) ++
          [Completed done (set_statuscode RPC_STREAM_ERROR seen)]).
Proof.
  intros Hty Hstream Hms.
  destruct w as [ldr lease term applied ms0 resp clock ticks tr].
  simpl in Hms. cbv zeta.
  split; [intros connection Hacc | intros Hacc];
    run_model; rewrite Hty; rewrite Hms; simpl; rewrite Hstream; simpl;
    rewrite Hacc; simpl; tidy_trace; repeat split.
Qed.

Ltac split_cases :=
  repeat (simpl;
          match goal with
          | |- context [match ?x with _ => _ end] =>
              let T := type of x in
              lazymatch T with
              | bool => idtac
              | option _ => idtac
              | MetaStatusCode => idtac
              end;
              destruct x eqn:?
          end).

Lemma OnApply_completes_once (op : MetaOperator) (index : Z) (done : Closure)
    (startTimeUs : Z) (w : World) :
  let wa := snd (OnApply op index done startTimeUs w) in
  closure_runs (w_trace wa) = closure_runs (w_trace w) ++ [done]
  /\ exists seen,
       visible (w_trace wa) = visible (w_trace w) ++ [Completed done seen]
       \/ visible (w_trace wa) =
            visible (w_trace w) ++ [Completed done seen; Streamed].
Proof.
  destruct w as [ldr lease term applied ms resp clock ticks tr].
  cbv zeta.
  unfold OnApply.
  destruct (op_type op) eqn:Hty; run_model;
    destruct (metastore_call _ (request_ op) resp ms) as [[st r] ms'];
    destruct st; split_cases; tidy_trace;
    (split; [reflexivity | eexists; (left; reflexivity) || (right; reflexivity)]).
Qed.

Lemma Propose_runs_or_hands_over (op : MetaOperator) (w : World) :
  let wp := snd (Propose op w) in
  (closure_runs (w_trace wp) = closure_runs (w_trace w) ++ [done_ op]
   /\ queued (w_trace wp) = queued (w_trace w)
   /\ proposals (w_trace wp) = proposals (w_trace w))
  \/
  (closure_runs (w_trace wp) = closure_runs (w_trace w)
   /\ ((exists h ty t,
          queued (w_trace wp) = queued (w_trace w) ++ [(h, ty, t)]
          /\ at_done t = MetaOperatorClosure (done_id op)
          /\ proposals (w_trace wp) = proposals (w_trace w))
       \/ (exists t,
             proposals (w_trace wp) = proposals (w_trace w) ++ [t]
             /\ task_done t = MetaOperatorClosure (done_id op)
             /\ queued (w_trace wp) = queued (w_trace w)))).
Proof.
  destruct w as [ldr lease term applied ms resp clock ticks tr].
  cbv zeta. run_model.
  destruct ldr; simpl;
    [ destruct (CanBypassPropose (op_type op)); simpl;
      [ destruct lease; simpl | ];
      try (destruct (Encode (op_type op) (request_ op)); simpl) | ];
    tidy_trace;
    first
      [ left; repeat split; reflexivity
      | right; split;
        [ reflexivity
        | first [ left; do 3 eexists; repeat split; reflexivity
                | right; eexists; repeat split; reflexivity ] ] ].
Qed.

(** C3.  The completion closure runs exactly once on every terminating
    path.  In Propose the RPC closure runs once when the request is
    redirected (not the leader, or lease expired) and when the encoding
    fails; on every other path Propose does not run it and hands exactly
    one MetaOperatorClosure to the apply queue or to the node.  In OnApply,
    for every operator and every outcome, the closure it was given runs
    exactly once, and on the paths that stream it runs before the records
    are pushed. *)
Theorem closure_invoked_exactly_once (op : MetaOperator) (w : World)
    (index : Z) (done : Closure) (startTimeUs : Z) :
  let wp := snd (Propose op w) in
  let wa := snd (OnApply op index done startTimeUs w) in
  (w_is_leader_term w = false ->
     closure_runs (w_trace wp) = closure_runs (w_trace w) ++ [done_ op]
     /\ statuscode (w_response wp) = Some REDIRECTED)
  /\
  (w_is_leader_term w = true ->
   CanBypassPropose (op_type op) = true ->
   w_lease_status w = LeaseExpired ->
     closure_runs (w_trace wp) = closure_runs (w_trace w) ++ [done_ op]
     /\ statuscode (w_response wp) = Some REDIRECTED)
  /\
  (w_is_leader_term w = true ->
   CanBypassPropose (op_type op) = false
   \/ w_lease_status w = LeaseNotReady
   \/ w_lease_status w = LeaseDisabled ->
   Encode (op_type op) (request_ op) = None ->
     closure_runs (w_trace wp) = closure_runs (w_trace w) ++ [done_ op]
     /\ statuscode (w_response wp) = Some UNKNOWN_ERROR)
  /\
  ((closure_runs (w_trace wp) = closure_runs (w_trace w) ++ [done_ op]
    /\ queued (w_trace wp) = queued (w_trace w)
    /\ proposals (w_trace wp) = proposals (w_trace w))
   \/
   (closure_runs (w_trace wp) = closure_runs (w_trace w)
    /\ ((exists h ty t,
           queued (w_trace wp) = queued (w_trace w) ++ [(h, ty, t)]
           /\ at_done t = MetaOperatorClosure (done_id op)
           /\ proposals (w_trace wp) = proposals (w_trace w))
        \/ (exists t,
              proposals (w_trace wp) = proposals (w_trace w) ++ [t]
              /\ task_done t = MetaOperatorClosure (done_id op)
              /\ queued (w_trace wp) = queued (w_trace w)))))
  /\
  (closure_runs (w_trace wa) = closure_runs (w_trace w) ++ [done]
   /\ exists seen,
        visible (w_trace wa) = visible (w_trace w) ++ [Completed done seen]
        \/ visible (w_trace wa) =
             visible (w_trace w) ++ [Completed done seen; Streamed]).
Proof.
  cbv zeta.
  split; [| split; [| split; [| split]]].
  - intros Hleader.
    destruct w as [ldr lease term applied ms resp clock ticks tr].
    simpl in Hleader. subst ldr. run_model. tidy_trace. split; reflexivity.
  - intros Hleader Hby Hlease.
    destruct w as [ldr lease term applied ms resp clock ticks tr].
    simpl in Hleader, Hlease. subst ldr lease. run_model. rewrite Hby.
    simpl. tidy_trace. split; reflexivity.
  - intros Hleader Hpath Henc.
    destruct w as [ldr lease term applied ms resp clock ticks tr].
    simpl in Hleader, Hpath. subst ldr. run_model. rewrite Henc.
    destruct Hpath as [Hby | [Hlease | Hlease]];
      [ rewrite Hby | subst lease; destruct (CanBypassPropose (op_type op))
      | subst lease; destruct (CanBypassPropose (op_type op)) ];
      simpl; tidy_trace; split; reflexivity.
  - apply Propose_runs_or_hands_over.
  - apply OnApply_completes_once.
Qed.

(** C5, as the code has it.  For GetDentry, ListDentry, GetInode,
    BatchGetInodeAttr and BatchGetXAttr the task pushed by the fast path
    carries the applied index that the node reported at propose time.
    When the apply queue runs it and the metastore returns OK, OnApply does
    call UpdateAppliedIndex, with that index; on a node that leaves its
    applied index alone when the argument does not exceed it, the applied
    index is unchanged and the response carries the index that the node
    currently reports.  When the metastore returns another status there is
    no update call, and neither the node's applied index nor the response's
    applied index is written. *)
Theorem lease_read_fast_apply (op : MetaOperator) (w wq : World) :
  lease_read (op_type op) = true ->
  in_u64 (w_applied w) ->
  let t := fast_task op w in
  let w' := snd (run_task t wq) in
  let answer :=
    metastore_call (op_type op) (request_ op) (w_response wq) (w_metastore wq) in
  (w_is_leader_term w = true -> w_lease_status w = LeaseLeader ->
     queued (w_trace (snd (Propose op w))) =
       queued (w_trace w) ++ [(HashCode op, op_type op, t)])
  /\
  (fst (fst answer) = OK ->
     applied_updates (w_trace w') = applied_updates (w_trace wq) ++ [w_applied w]
     /\ w_applied w' = node_update_applied (w_applied w) (w_applied wq)
     /\ (applied_index_keeps -> w_applied w <= w_applied wq ->
           w_applied w' = w_applied wq
           /\ appliedindex (w_response w') = Some (w_applied wq)))
  /\
  (fst (fst answer) <> OK ->
     applied_updates (w_trace w') = applied_updates (w_trace wq)
     /\ w_applied w' = w_applied wq
     /\ appliedindex (w_response w') = appliedindex (snd (fst answer))).
Proof.
  intros Hread Hrange. cbv zeta.
  assert (Hby : CanBypassPropose (op_type op) = true).
  { destruct (op_type op); try discriminate Hread; reflexivity. }
  destruct w as [ldr0 lease0 term0 applied0 ms0 resp0 clock0 ticks0 tr0].
  simpl in Hrange.
  pose proof (u64_i64 _ Hrange) as Hconv.
  unfold fast_task, run_task. simpl.
  split; [| split].
  - intros Hleader Hlease. subst ldr0 lease0.
    run_model. rewrite Hby. simpl. tidy_trace. reflexivity.
  - intros Hok.
    destruct wq as [ldr lease term applied ms resp clock ticks tr].
    simpl in Hok. simpl. unfold OnApply.
    destruct (op_type op) eqn:Hty; try discriminate Hread;
      run_model;
      destruct (metastore_call _ (request_ op) resp ms) as [[st r] ms'];
      simpl in Hok; subst st; simpl; rewrite Hconv; tidy_trace;
      (split; [reflexivity |]); (split; [reflexivity |]);
      intros Hkeep Hle; rewrite (Hkeep _ _ Hle);
      rewrite Z.max_r by exact Hle; split; reflexivity.
  - intros Hbad.
    destruct wq as [ldr lease term applied ms resp clock ticks tr].
    simpl in Hbad. simpl. unfold OnApply.
    destruct (op_type op) eqn:Hty; try discriminate Hread;
      run_model;
      destruct (metastore_call _ (request_ op) resp ms) as [[st r] ms'];
      simpl in Hbad; destruct st; try (exfalso; apply Hbad; reflexivity);
      simpl; tidy_trace; repeat split.
Qed.

End Facts.

(** *** Runs on the sample collaborators *)

Lemma read_only_propose_by_lease_witness :
  let op := sample_operator GetInode 4 0 false in
  let w1 := sample_world true LeaseLeader 5 in
  let w2 := sample_world true LeaseExpired 5 in
  queued (w_trace (snd (Propose op w1))) = [(4, GetInode, fast_task op w1)]
  /\ proposals (w_trace (snd (Propose op w1))) = []
  /\ statuscode (w_response (snd (Propose op w2))) = Some REDIRECTED.
Proof.
  intros op w1 w2.
  assert (Hro : In (op_type op)
                  [GetDentry; ListDentry; GetInode; BatchGetInodeAttr;
                   BatchGetXAttr; GetVolumeExtent]).
  { simpl. right. right. left. reflexivity. }
  destruct (read_only_propose_by_lease op w1 Hro eq_refl) as [Hfast _].
  destruct (read_only_propose_by_lease op w2 Hro eq_refl) as [_ Hexp].
  destruct (Hfast eq_refl) as (_ & Hp & Hq & _).
  destruct (Hexp eq_refl) as (Hs & _).
  split; [exact Hq | split; [exact Hp | exact Hs]].
Defined.

Lemma mutating_on_apply_advances_witness :
  let op := sample_operator CreateInode 4 0 false in
  let w := sample_world true LeaseDisabled 5 in
  let w' := snd (OnApply op 9 (MetaOperatorClosure 7) 990 w) in
  applied_updates (w_trace w') = [9]
  /\ appliedindex (w_response w') = Some 9
  /\ 9 <= w_applied w'.
Proof.
  intros op w w'.
  assert (Hidx : in_i64 9) by (unfold in_i64; lia).
  assert (Hadv : @applied_index_advances sample_collaborators).
  { intros i a. simpl. lia. }
  destruct (mutating_on_apply_advances op 9 (MetaOperatorClosure 7) 990 w
              eq_refl Hidx eq_refl) as (Hu & _ & _ & Hr & _ & Hn).
  assert (Hpos : 0 <= 9) by lia.
  split; [exact Hu | split; [exact (Hr Hpos) | exact (Hn Hadv)]].
Defined.

Lemma closure_invoked_exactly_once_witness :
  let op := sample_operator GetDentry (-1) 0 false in
  let done := MetaOperatorClosure 7 in
  closure_runs (w_trace (snd (Propose op (sample_world false LeaseLeader 5))))
    = [RpcDone 7]
  /\ closure_runs (w_trace (snd (Propose op (sample_world true LeaseExpired 5))))
    = [RpcDone 7]
  /\ closure_runs (w_trace (snd (Propose op (sample_world true LeaseNotReady 5))))
    = [RpcDone 7]
  /\ closure_runs
       (w_trace (snd (OnApply op 5 done 990 (sample_world true LeaseLeader 5))))
    = [done].
Proof.
  intros op done.
  destruct (closure_invoked_exactly_once op (sample_world false LeaseLeader 5)
              5 done 990) as (H1 & _).
  destruct (closure_invoked_exactly_once op (sample_world true LeaseExpired 5)
              5 done 990) as (_ & H2 & _).
  destruct (closure_invoked_exactly_once op (sample_world true LeaseNotReady 5)
              5 done 990) as (_ & _ & H3 & _).
  destruct (closure_invoked_exactly_once op (sample_world true LeaseLeader 5)
              5 done 990) as (_ & _ & _ & _ & H4 & _).
  split; [exact (proj1 (H1 eq_refl)) |].
  split; [exact (proj1 (H2 eq_refl eq_refl eq_refl)) |].
  split; [exact (proj1 (H3 eq_refl (or_intror (or_introl eq_refl)) eq_refl)) |].
  exact H4.
Defined.

Lemma propose_encode_failure_witness :
  let op := sample_operator CreatePartition (-1) 0 false in
  let w := sample_world true LeaseDisabled 5 in
  statuscode (w_response (snd (Propose op w))) = Some UNKNOWN_ERROR
  /\ proposals (w_trace (snd (Propose op w))) = []
  /\ closure_runs (w_trace (snd (Propose op w))) = [RpcDone 7].
Proof.
  intros op w.
  destruct (propose_encode_failure op w eq_refl (or_introl eq_refl) eq_refl)
    as (Hs & Hp & _ & Hr & _).
  split; [exact Hs | split; [exact Hp | exact Hr]].
Defined.

(** C5 as stated fails: GetInode taken through the fast path on a node
    whose applied index is 5 does call UpdateAppliedIndex, with 5. *)
Lemma fast_path_read_calls_update :
  let op := sample_operator GetInode 4 0 false in
  let w := sample_world true LeaseLeader 5 in
  let w1 := snd (Propose op w) in
  let t := fast_task op w in
  queued (w_trace w1) = [(4, GetInode, t)]
  /\ applied_updates (w_trace w1) = []
  /\ applied_updates (w_trace (snd (run_task t w1))) = [5]
  /\ applied_updates (w_trace (snd (run_task t w1))) <> applied_updates (w_trace w1).
Proof.
  intros op w w1 t. repeat split. discriminate.
Qed.

Lemma lease_read_fast_apply_witness :
  let op := sample_operator GetInode 4 0 false in
  let w := sample_world true LeaseLeader 5 in
  let wq := sample_world true LeaseLeader 8 in
  let bad := sample_operator GetInode 4 (-1) false in
  let w' := snd (run_task (fast_task op w) wq) in
  applied_updates (w_trace w') = [5]
  /\ w_applied w' = 8
  /\ appliedindex (w_response w') = Some 8
  /\ applied_updates (w_trace (snd (run_task (fast_task bad w) wq))) = [].
Proof.
  intros op w wq bad w'.
  assert (Hrange : in_u64 5) by (unfold in_u64; lia).
  assert (Hkeep : @applied_index_keeps sample_collaborators).
  { intros i a Hle. simpl. lia. }
  assert (Hle : 5 <= 8) by lia.
  assert (Hbad : OtherCode 7 <> OK) by discriminate.
  destruct (lease_read_fast_apply op w wq eq_refl Hrange) as (_ & Hok & _).
  destruct (lease_read_fast_apply bad w wq eq_refl Hrange) as (Hq & _ & Hno).
  pose proof (Hq eq_refl eq_refl) as _.
  destruct (Hok eq_refl) as (Hu & _ & Hsame).
  destruct (Hsame Hkeep Hle) as (Ha & Hr).
  destruct (Hno Hbad) as (Hnone & _).
  split; [exact Hu | split; [exact Ha | split; [exact Hr | exact Hnone]]].
Defined.

Lemma get_volume_extent_streaming_witness :
  let ok := {| op_type := GetVolumeExtent;
               request_ := sample_request 4 0 true;
               cntl_ := 1; done_id := 7%nat |} in
  let refused := {| op_type := GetVolumeExtent;
                    request_ := sample_request 4 0 true;
                    cntl_ := -1; done_id := 7%nat |} in
  let w := sample_world true LeaseLeader 5 in
  let done := MetaOperatorClosure 7 in
  (exists seen,
     visible (w_trace (snd (OnApply ok 5 done 990 w)))
       = [Completed done seen; Streamed]
     /\ slices seen = [])
  /\ statuscode (w_response (snd (OnApply refused 5 done 990 w)))
     = Some RPC_STREAM_ERROR.
Proof.
  intros ok refused w done.
  destruct (get_volume_extent_streaming ok 5 done 990 w _ _
              eq_refl eq_refl eq_refl) as (Hacc & _).
  destruct (get_volume_extent_streaming refused 5 done 990 w _ _
              eq_refl eq_refl eq_refl) as (_ & Hrej).
  destruct (Hacc 101 eq_refl) as (_ & Hempty & _ & Hvis).
  destruct (Hrej eq_refl) as (Hs & _).
  split; [eexists; split; [exact Hvis | exact Hempty] | exact Hs].
Defined.

End MetaOpProofs.

(** * Properties of the disk cache uploader *)

Module DiskCacheProofs.

Import DiskCache.

Section Facts.

Context `{Env : Surroundings}.

Ltac run_cache :=
  cbv [ReadFile RemoveFile UploadFile UploadFile_cb invoke UploadAsync Signal
       client_complete emit bind ret w_inflight w_trace];
  simpl.

Lemma skipn_repeat_app {A} (x : A) (n : nat) (l : list A) :
  skipn n (repeat x n ++ l) = l.
Proof.
  induction n as [| n IH]; simpl; [reflexivity | exact IH].
Qed.

Lemma skipn_repeat_succ {A} (x : A) (n : nat) :
  skipn n (repeat x (S n)) = [x].
Proof.
  induction n as [| n IH]; simpl; [reflexivity | exact IH].
Qed.

(** After [malloc(len + 1)], [memset(buffer, '0', len)] and a read that
    delivers [len] bytes, the buffer holds the data followed by one byte
    that nothing has written. *)
Lemma cells_after_full_read (data : list byte) :
  let len := Z.of_nat (List.length data) in
  read_cells data (memset_cells char_0 len (malloc_cells (len + 1)))
  = map Some data ++ [None].
Proof.
  cbv zeta. unfold read_cells, memset_cells, malloc_cells.
  rewrite Nat2Z.id.
  replace (Z.to_nat (Z.of_nat (List.length data) + 1))
    with (S (List.length data)) by lia.
  rewrite skipn_repeat_app, skipn_repeat_succ. reflexivity.
Qed.

(** The success path of [ReadFile]. *)
Lemma ReadFile_success (name : string) (w : World)
    (sret fd ptr : Z) (data : list byte) :
  let path := (GetCacheIoFullDir ++ "/" ++ name)%string in
  let len := Z.of_nat (List.length data) in
  IsFileExist path = true ->
  posix_stat path = (sret, len) -> 0 <= sret ->
  len + 1 < 2 ^ 64 ->
  posix_open path = fd -> 0 <= fd ->
  posix_malloc (len + 1) = Some ptr ->
  posix_memset ptr = true ->
  posix_read fd len = Some data ->
  ReadFile name w =
    (ReadOk {| buf_ptr := ptr; buf_cells := map Some data ++ [None] |} len,
     {| w_inflight := w_inflight w;
        w_trace := w_trace w ++
                   [EvStat path; EvOpen path; EvMalloc (len + 1);
                    EvMemset ptr char_0 len; EvRead fd len; EvClose fd] |}).
Proof.
  cbv zeta. intros Hex Hstat Hsret Hlen Hopen Hfd Hmalloc Hmemset Hread.
  pose proof (Nat2Z.is_nonneg (List.length data)) as Hpos.
  unfold ReadFile. cbv zeta. rewrite Hex, Hstat, Hopen. cbv beta iota.
  rewrite Z.mul_1_r.
  rewrite (u64_small (_ + 1)) by lia.
  rewrite (u64_small (Z.of_nat _)) by lia.
  rewrite Hmalloc, Hmemset, Hread.
  rewrite Nat2Z.id, firstn_all.
  destruct (sret <? 0) eqn:E1; [apply Z.ltb_lt in E1; lia |].
  destruct (fd <? 0) eqn:E2; [apply Z.ltb_lt in E2; lia |].
  rewrite Z.ltb_irrefl.
  rewrite cells_after_full_read.
  run_cache. repeat rewrite <- app_assoc. reflexivity.
Qed.

(** A read that delivers fewer bytes than [stat] reported is an error: the
    buffer is freed, the descriptor closed and [*buf] left alone. *)
Lemma ReadFile_short_read (name : string) (w : World)
    (sret fd ptr len : Z) (data : list byte) :
  let path := (GetCacheIoFullDir ++ "/" ++ name)%string in
  IsFileExist path = true ->
  posix_stat path = (sret, len) -> 0 <= sret ->
  0 <= len -> len + 1 < 2 ^ 64 ->
  posix_open path = fd -> 0 <= fd ->
  posix_malloc (len + 1) = Some ptr ->
  posix_memset ptr = true ->
  posix_read fd len = Some data ->
  Z.of_nat (List.length data) < len ->
  ReadFile name w =
    (ReadErr (-1) (Some len),
     {| w_inflight := w_inflight w;
        w_trace := w_trace w ++
                   [EvStat path; EvOpen path; EvMalloc (len + 1);
                    EvMemset ptr char_0 len; EvRead fd len;
                    EvFree ptr; EvClose fd] |}).
Proof.
  cbv zeta.
  intros Hex Hstat Hsret Hpos Hlen Hopen Hfd Hmalloc Hmemset Hread Hshort.
  unfold ReadFile. cbv zeta. rewrite Hex, Hstat, Hopen. cbv beta iota.
  rewrite Z.mul_1_r.
  rewrite (u64_small (_ + 1)) by lia.
  rewrite (u64_small len) by lia.
  rewrite Hmalloc, Hmemset, Hread.
  destruct (sret <? 0) eqn:E1; [apply Z.ltb_lt in E1; lia |].
  destruct (fd <? 0) eqn:E2; [apply Z.ltb_lt in E2; lia |].
  assert (Hcmp : (Z.of_nat (List.length (firstn (Z.to_nat len) data)) <? len) = true).
  { apply Z.ltb_lt. rewrite length_firstn. lia. }
  rewrite Hcmp.
  run_cache. repeat rewrite <- app_assoc. reflexivity.
Qed.

(** Whenever [ReadFile] returns a buffer, it has submitted nothing and has
    neither freed nor removed nor signalled anything. *)
Lemma ReadFile_ok_quiet (name : string) (w w1 : World) (buf : Buffer) (size : Z) :
  ReadFile name w = (ReadOk buf size, w1) ->
  w_inflight w1 = w_inflight w
  /\ exists evs,
       w_trace w1 = w_trace w ++ evs
       /\ removes evs = [] /\ frees evs = [] /\ signals evs = []
       /\ submissions evs = [].
Proof.
  unfold ReadFile.
  destruct (IsFileExist _); simpl; [| discriminate].
  destruct (posix_stat _) as [sret st_size].
  destruct (sret <? 0); [discriminate |].
  destruct (posix_open _ <? 0); [discriminate |].
  destruct (posix_malloc _) as [ptr |]; [| discriminate].
  destruct (posix_memset ptr); simpl; [| discriminate].
  destruct (posix_read _ _) as [delivered |]; [| discriminate].
  destruct (_ <? st_size); [discriminate |].
  run_cache. intros H. inversion H; subst; clear H. simpl.
  split; [reflexivity |].
  repeat rewrite <- app_assoc. simpl.
  eexists. split; [reflexivity |]. repeat split.
Qed.

Ltac tidy_views :=
  unfold removes, frees, signals, submissions, memsets;
  repeat rewrite flat_map_app; simpl;
  repeat rewrite app_nil_r.

(** One failed attempt: the callback hands the context, now holding the
    failure code, back to the client. *)
Lemma client_complete_failure (buf : Buffer) (syncTask : option nat)
    (name : string) (rc : Z) (c : PutObjectAsyncContext) (tr : list Event) :
  cb c = UploadFileCb buf syncTask name ->
  rc < 0 ->
  client_complete rc {| w_inflight := [c]; w_trace := tr |}
  = (tt, {| w_inflight := [with_retCode rc c];
            w_trace := tr ++ [EvUploadAsync (with_retCode rc c)] |}).
Proof.
  intros Hcb Hrc.
  unfold client_complete, invoke. cbn [w_inflight w_trace with_retCode cb].
  rewrite Hcb. unfold UploadFile_cb.
  change (retCode (with_retCode rc c)) with rc.
  destruct (0 <=? rc) eqn:E; [apply Z.leb_le in E; lia |].
  reflexivity.
Qed.

(** The object-store client failing a number of attempts and then
    succeeding, with one upload of [UploadFile] in flight. *)
Lemma client_retries (buf : Buffer) (syncTask : option nat) (name : string)
    (ok : Z) (failures : list Z) :
  Forall (fun rc => rc < 0) failures ->
  0 <= ok ->
  forall (c : PutObjectAsyncContext) (tr : list Event),
  cb c = UploadFileCb buf syncTask name ->
  let w' := snd (client_run (failures ++ [ok])
                   {| w_inflight := [c]; w_trace := tr |}) in
  w_inflight w' = []
  /\ submissions (w_trace w') =
       submissions tr ++ map (fun rc => with_retCode rc c) failures
  /\ removes (w_trace w') =
       removes tr ++ [(GetCacheIoFullDir ++ "/" ++ key c)%string]
  /\ frees (w_trace w') = frees tr ++ [buf_ptr buf]
  /\ signals (w_trace w') =
       signals tr ++ match syncTask with Some t => [t] | None => [] end.
Proof.
  intros Hneg Hok.
  induction Hneg as [| rc rest Hrc Hrest IH]; intros c tr Hcb; cbv zeta.
  - change ([] ++ [ok])%list with [ok].
    unfold client_run, bind, client_complete, invoke, ret.
    cbn [w_inflight w_trace with_retCode cb]. rewrite Hcb.
    unfold UploadFile_cb, RemoveFile, Signal, bind, emit, ret.
    change (retCode (with_retCode ok c)) with ok.
    change (key (with_retCode ok c)) with (key c).
    destruct (0 <=? ok) eqn:E; [| apply Z.leb_gt in E; lia].
    destruct metric_, s3Metric_, (posix_remove _ <? 0), syncTask;
      cbn [w_inflight w_trace fst snd]; tidy_views; repeat split.
  - change ((rc :: rest) ++ [ok])%list with (rc :: (rest ++ [ok]))%list.
    change (client_run (rc :: (rest ++ [ok]))%list)
      with (bind (client_complete rc) (fun _ => client_run (rest ++ [ok]))).
    unfold bind.
    rewrite (client_complete_failure buf syncTask name rc c tr Hcb Hrc).
    specialize (IH (with_retCode rc c)
                   (tr ++ [EvUploadAsync (with_retCode rc c)])%list Hcb).
    cbv zeta in IH. destruct IH as (Hin & Hsub & Hrem & Hfree & Hsig).
    split; [exact Hin |].
    split; [rewrite Hsub; tidy_views; rewrite <- app_assoc; reflexivity |].
    split; [rewrite Hrem; tidy_views; reflexivity |].
    split; [rewrite Hfree; tidy_views; reflexivity |].
    rewrite Hsig; tidy_views; reflexivity.
Qed.

(** C7.  An upload that [UploadFile] has submitted, completed by the
    object-store client with any number of failure codes followed by a
    success code: every failure re-submits the same context; over the
    whole sequence the staged file is removed once, the buffer freed once
    and the barrier, if there is one, signalled once; nothing stays in
    flight. *)
Theorem upload_retries_until_success (name : string) (syncTask : option nat)
    (w w1 : World) (buf : Buffer) (size : Z) (failures : list Z) (ok : Z) :
  ReadFile name w = (ReadOk buf size, w1) ->
  w_inflight w = [] ->
  Forall (fun rc => rc < 0) failures ->
  0 <= ok ->
  let context := {| key := name; buffer := buf; bufferSize := size;
                    cb := UploadFileCb buf syncTask name; retCode := 0 |} in
  let w2 := snd (UploadFile name syncTask w) in
  let w3 := snd (client_run (failures ++ [ok]) w2) in
  fst (UploadFile name syncTask w) = 0
  /\ w_inflight w2 = [context]
  /\ submissions (w_trace w3) =
       submissions (w_trace w) ++
       context :: map (fun rc => with_retCode rc context) failures
  /\ removes (w_trace w3) =
       removes (w_trace w) ++ [(GetCacheIoFullDir ++ "/" ++ name)%string]
  /\ frees (w_trace w3) = frees (w_trace w) ++ [buf_ptr buf]
  /\ signals (w_trace w3) =
       signals (w_trace w) ++ match syncTask with Some t => [t] | None => [] end
  /\ w_inflight w3 = [].
Proof.
  intros Hread Hidle Hneg Hok.
  set (context := {| key := name; buffer := buf; bufferSize := size;
                     cb := UploadFileCb buf syncTask name; retCode := 0 |}).
  cbv zeta.
  destruct (ReadFile_ok_quiet _ _ _ _ _ Hread)
    as (Hin & evs & Htr & Hrem & Hfree & Hsig & Hsub).
  destruct w1 as [inflight1 tr1]. cbn [w_inflight w_trace] in Hin, Htr.
  rewrite Hidle in Hin. subst inflight1 tr1.
  unfold UploadFile, bind. rewrite Hread.
  fold context.
  unfold UploadAsync, bind, emit, ret.
  cbn [fst snd w_inflight w_trace app].
  split; [reflexivity |]. split; [reflexivity |].
  pose proof (client_retries buf syncTask name ok failures Hneg Hok context
                ((w_trace w ++ evs) ++ [EvUploadAsync context])%list
                eq_refl) as H.
  cbv zeta in H.
  destruct H as (Hin3 & Hsub3 & Hrem3 & Hfree3 & Hsig3).
  rewrite Hsub3, Hrem3, Hfree3, Hsig3.
  unfold removes, frees, signals, submissions in *.
  repeat rewrite flat_map_app.
  rewrite Hrem, Hfree, Hsig, Hsub.
  cbn [flat_map app]. repeat rewrite app_nil_r.
  split; [rewrite <- app_assoc; reflexivity |].
  repeat split; try reflexivity. exact Hin3.
Qed.

(** *** GetUploadFile *)

Lemma remove_if_emplace_filter (p : string -> bool) (l toUpload : list string) :
  remove_if_emplace p l toUpload
  = (filter (fun x => negb (p x)) l, toUpload ++ filter p l).
Proof.
  revert toUpload.
  induction l as [| x rest IH]; intros toUpload; simpl.
  - rewrite app_nil_r. reflexivity.
  - destruct (p x); simpl.
    + rewrite IH, <- app_assoc. reflexivity.
    + rewrite IH. reflexivity.
Qed.

Lemma i32_small (z : Z) : 0 <= z < 2 ^ 31 -> i32 z = z.
Proof.
  intros H. unfold i32. rewrite Z.mod_small; lia.
Qed.

(** C10.  GetUploadFile never clears the output list.  With an empty queue
    it returns 0 and leaves both lists alone.  With a non-empty inode it
    appends the matching names, in queue order, to what the output list
    held, keeps the others queued, and returns the length of the whole
    output list, which is the prior length plus the number drained.  With
    an empty inode it swaps the lists: the queue becomes the output and
    the prior output becomes the queue. *)
Theorem GetUploadFile_keeps_output (inode : string)
    (waitUpload toUpload : list string) :
  let r := GetUploadFile inode waitUpload toUpload in
  let ret := fst (fst r) in
  let waitUpload' := snd (fst r) in
  let toUpload' := snd r in
  let matches := fun filename => ValidNameOfInode inode filename objectPrefix_ in
  (waitUpload = [] ->
     ret = 0 /\ toUpload' = toUpload /\ waitUpload' = [])
  /\
  (waitUpload <> [] -> inode <> EmptyString ->
     toUpload' = toUpload ++ filter matches waitUpload
     /\ waitUpload' = filter (fun x => negb (matches x)) waitUpload
     /\ ret = i32 (Z.of_nat (List.length toUpload'))
     /\ (Z.of_nat (List.length toUpload') < 2 ^ 31 ->
           ret = Z.of_nat (List.length toUpload)
                 + Z.of_nat (List.length (filter matches waitUpload))))
  /\
  (waitUpload <> [] -> inode = EmptyString ->
     toUpload' = waitUpload
     /\ waitUpload' = toUpload
     /\ ret = i32 (Z.of_nat (List.length toUpload'))
     /\ (Z.of_nat (List.length toUpload') < 2 ^ 31 ->
           ret = Z.of_nat (List.length waitUpload))).
Proof.
  cbv zeta. unfold GetUploadFile.
  split; [| split].
  - intros ->. simpl. repeat split.
  - intros Hne Hinode.
    destruct waitUpload as [| x rest]; [contradiction Hne; reflexivity |].
    destruct inode as [| ch inode']; [contradiction Hinode; reflexivity |].
    cbn [string_empty].
    rewrite remove_if_emplace_filter. cbn [fst snd].
    repeat split.
    intros Hfit. rewrite i32_small by lia.
    rewrite length_app. lia.
  - intros Hne ->.
    destruct waitUpload as [| x rest]; [contradiction Hne; reflexivity |].
    cbn [string_empty fst snd]. repeat split.
    intros Hfit. apply i32_small. lia.
Qed.

End Facts.

(** *** The directory walk *)

(** The test of the walk, [strncmp(d_name, ".", 1) == 0 ||
    strncmp(d_name, "..", 2) == 0], holds exactly of the names whose first
    character is a dot. *)
Lemma walk_test_begins_with_dot (n : string) :
  strncmp_is0 n "."%string 1 || strncmp_is0 n ".."%string 2 = begins_with_dot n.
Proof.
  unfold strncmp_is0.
  destruct n as [| a s]; [reflexivity |].
  destruct s as [| b s]; simpl.
  - destruct (Ascii.eqb a "."%char); reflexivity.
  - destruct s as [| c s]; simpl;
      destruct (Ascii.eqb a "."%char); simpl; try reflexivity;
      destruct (Ascii.eqb b "."%char); reflexivity.
Qed.

Lemma dot_entry_begins_with_dot (n : string) :
  begins_with_dot n = false -> dot_entry n = false.
Proof.
  unfold dot_entry. intros H.
  destruct (String.eqb_spec n "."%string) as [-> | _]; [discriminate H |].
  destruct (String.eqb_spec n ".."%string) as [-> | _]; [discriminate H |].
  reflexivity.
Qed.

Lemma Reach_weaken (skip1 skip2 : string -> bool) :
  (forall n, skip1 n = false -> skip2 n = false) ->
  (forall dir n, Reach skip1 dir n -> Reach skip2 dir n).
Proof.
  intros Hskip.
  refine (Dir_mut
            (fun dir => forall n, Reach skip1 dir n -> Reach skip2 dir n)
            (fun ents => forall n, ReachEnts skip1 ents n -> ReachEnts skip2 ents n)
            _ _ _ _).
  - intros n H. inversion H.
  - intros ents IH c n H. inversion H; subst. constructor. apply IH. assumption.
  - intros n H. inversion H.
  - intros d_name d_type target IHt rest IHr n H.
    inversion H; subst.
    + apply Reach_here. apply Hskip. assumption.
    + apply Reach_below; [apply Hskip; assumption | assumption |].
      apply IHt. assumption.
    + apply Reach_later. apply IHr. assumption.
Qed.

Lemma listDir_adds (dir : Dir) :
  forall path cacheObj, walk_adds dir path cacheObj.
Proof.
  refine (Dir_mut
            (fun dir => forall path cacheObj, walk_adds dir path cacheObj)
            (fun ents => forall path c cacheObj, loop_adds ents path c cacheObj)
            _ _ _ _ dir).
  - (* opendir fails *)
    intros path cacheObj. exists []. simpl.
    split; [rewrite app_nil_r; reflexivity |].
    split; [intros n [] | discriminate].
  - (* opendir succeeds *)
    intros ents IH c path cacheObj.
    destruct (IH path c cacheObj) as (added & Hout & Hsound & Hcompl).
    exists added. simpl.
    split; [exact Hout |].
    split.
    + intros n Hin. constructor. apply Hsound. exact Hin.
    + intros Hok n Hreach. inversion Hreach; subst. apply Hcompl; assumption.
  - (* readdir returns NULL *)
    intros path c cacheObj. exists []. simpl.
    split; [rewrite app_nil_r; reflexivity |].
    split; [intros n [] | intros _ n H; inversion H].
  - (* readdir returns an entry *)
    intros d_name d_type target IHt rest IHr path c cacheObj.
    unfold loop_adds. simpl.
    rewrite walk_test_begins_with_dot.
    destruct (begins_with_dot d_name) eqn:Hdot.
    + destruct (IHr path c cacheObj) as (added & Hout & Hsound & Hcompl).
      exists added. split; [exact Hout |]. split.
      * intros n Hin. apply Reach_later. apply Hsound. exact Hin.
      * intros Hok n Hreach. inversion Hreach; subst; try congruence.
        apply Hcompl; assumption.
    + destruct (Z.eqb_spec d_type 8) as [-> | Hty].
      * destruct (IHr path c (cacheObj ++ [d_name])%list)
          as (added & Hout & Hsound & Hcompl).
        exists (d_name :: added). split.
        { rewrite Hout, <- app_assoc. reflexivity. }
        split.
        { intros n [<- | Hin].
          - apply Reach_here. exact Hdot.
          - apply Reach_later. apply Hsound. exact Hin. }
        { intros Hok n Hreach. inversion Hreach; subst.
          - left. reflexivity.
          - congruence.
          - right. apply Hcompl; assumption. }
      * match goal with
        | |- context [listDir ?p target cacheObj] =>
            destruct (IHt p cacheObj) as (added1 & Hout1 & Hsound1 & Hcompl1);
            destruct (listDir p target cacheObj) as [ok cacheObj1] eqn:Hwalk
        end.
        simpl in Hout1, Hcompl1. subst cacheObj1.
        destruct ok.
        { destruct (IHr path c (cacheObj ++ added1)%list)
            as (added2 & Hout2 & Hsound2 & Hcompl2).
          exists (added1 ++ added2)%list. split.
          { rewrite Hout2, <- app_assoc. reflexivity. }
          split.
          - intros n Hin. apply in_app_or in Hin. destruct Hin as [Hin | Hin].
            + apply Reach_below; [exact Hdot | exact Hty |].
              apply Hsound1. exact Hin.
            + apply Reach_later. apply Hsound2. exact Hin.
          - intros Hok n Hreach. apply in_or_app.
            inversion Hreach; subst.
            + contradiction Hty. reflexivity.
            + left. apply Hcompl1; [reflexivity | assumption].
            + right. apply Hcompl2; assumption. }
        { exists added1. simpl. split; [reflexivity |]. split.
          - intros n Hin. apply Reach_below; [exact Hdot | exact Hty |].
            apply Hsound1. exact Hin.
          - discriminate. }
Qed.

Lemma Reach_not_dot_entry (dir : Dir) (n : string) :
  Reach dot_entry dir n -> n <> "."%string /\ n <> ".."%string.
Proof.
  revert n.
  refine (Dir_mut
            (fun dir => forall n, Reach dot_entry dir n ->
                                  n <> "."%string /\ n <> ".."%string)
            (fun ents => forall n, ReachEnts dot_entry ents n ->
                                   n <> "."%string /\ n <> ".."%string)
            _ _ _ _ dir).
  - intros n H. inversion H.
  - intros ents IH c n H. inversion H; subst. apply IH. assumption.
  - intros n H. inversion H.
  - intros d_name d_type target IHt rest IHr n H.
    inversion H; subst.
    + match goal with Hs : dot_entry _ = false |- _ =>
        unfold dot_entry in Hs; apply orb_false_elim in Hs;
        destruct Hs as [H1 H2] end.
      split; intros ->; discriminate.
    + apply IHt. assumption.
    + apply IHr. assumption.
Qed.

(** What the walk records.  It adds to the vector only entry names
    ([d_name], the last path component) of regular files that it meets
    below the directory without passing through [.] or [..]; [.] and [..]
    themselves are never added; and when the walk succeeds, every regular
    file whose own name and whose directories' names on the way down do
    not begin with a dot has its entry name in the vector. *)
Lemma listDir_records_entry_names (path : string) (dir : Dir)
    (cacheObj : list string) :
  exists added,
    snd (listDir path dir cacheObj) = (cacheObj ++ added)%list
    /\ ~ In "."%string added
    /\ ~ In ".."%string added
    /\ (forall n, In n added -> Reach dot_entry dir n)
    /\ (fst (listDir path dir cacheObj) = true ->
        forall n, Reach begins_with_dot dir n -> In n added).
Proof.
  destruct (listDir_adds dir path cacheObj) as (added & Hout & Hsound & Hcompl).
  assert (Hweak : forall n, In n added -> Reach dot_entry dir n).
  { intros n Hin.
    apply (Reach_weaken begins_with_dot dot_entry dot_entry_begins_with_dot).
    apply Hsound. exact Hin. }
  exists added.
  split; [exact Hout |].
  split; [intros Hin; apply Hweak, Reach_not_dot_entry in Hin; tauto |].
  split; [intros Hin; apply Hweak, Reach_not_dot_entry in Hin; tauto |].
  split; [exact Hweak | exact Hcompl].
Qed.

(** *** Runs on the sample surroundings *)

(** C8.  [ReadFile] on a staged file of three bytes: the buffer of four
    bytes is filled by [memset(buffer, '0', 3)], that is with the character
    ['0'] (0x30) over the first three bytes only, so that the buffer handed
    back holds the file's bytes followed by a byte that nothing has
    written; a read that comes back short frees the buffer and returns
    -1. *)
Theorem ReadFile_buffer_not_zeroed :
  let r := @ReadFile sample_surroundings "obj"%string empty_world in
  let short := @ReadFile sample_surroundings "short"%string empty_world in
  fst r = ReadOk {| buf_ptr := 4096;
                    buf_cells := [Some x61; Some x62; Some x63; None] |} 3
  /\ memsets (w_trace (snd r)) = [(4096, x30, 3)]
  /\ memset_cells char_0 3 (malloc_cells 4)
     = [Some x30; Some x30; Some x30; None]
  /\ fst short = ReadErr (-1) (Some 3)
  /\ frees (w_trace (snd short)) = [4096].
Proof.
  cbv zeta. repeat split.
Qed.

Lemma upload_retries_until_success_witness :
  let w2 := snd (@UploadFile sample_surroundings "obj"%string (Some 1%nat)
                   empty_world) in
  let w3 := snd (@client_run sample_surroundings [-1; -1; -1; 0] w2) in
  removes (w_trace w3) = ["/cache/obj"%string]
  /\ frees (w_trace w3) = [4096]
  /\ signals (w_trace w3) = [1%nat]
  /\ List.length (submissions (w_trace w3)) = 4%nat.
Proof.
  intros w2 w3.
  assert (Hneg : Forall (fun rc => rc < 0) [-1; -1; -1]).
  { repeat (constructor; [lia |]). constructor. }
  assert (Hok : 0 <= 0) by lia.
  destruct (@upload_retries_until_success sample_surroundings "obj"%string
              (Some 1%nat) empty_world _ _ _ [-1; -1; -1] 0
              eq_refl eq_refl Hneg Hok)
    as (_ & _ & Hsub & Hrem & Hfree & Hsig & _).
  split; [exact Hrem |]. split; [exact Hfree |]. split; [exact Hsig |].
  exact (f_equal (@List.length PutObjectAsyncContext) Hsub).
Defined.

Lemma GetUploadFile_keeps_output_witness :
  let queue := ["42_a"; "7_b"; "42_c"]%string in
  let prior := ["old"%string] in
  @GetUploadFile sample_surroundings "42"%string [] prior = (0, [], prior)
  /\ snd (@GetUploadFile sample_surroundings "42"%string queue prior)
     = ["old"; "42_a"; "42_c"]%string
  /\ fst (fst (@GetUploadFile sample_surroundings "42"%string queue prior)) = 3
  /\ snd (@GetUploadFile sample_surroundings ""%string queue prior) = queue
  /\ snd (fst (@GetUploadFile sample_surroundings ""%string queue prior)) = prior.
Proof.
  intros queue prior.
  assert (Hq : queue <> []) by discriminate.
  assert (Hi : "42"%string <> EmptyString) by discriminate.
  destruct (@GetUploadFile_keeps_output sample_surroundings "42"%string [] prior)
    as (Hempty & _ & _).
  destruct (@GetUploadFile_keeps_output sample_surroundings "42"%string queue prior)
    as (_ & Hfilter & _).
  destruct (@GetUploadFile_keeps_output sample_surroundings ""%string queue prior)
    as (_ & _ & Hswap).
  destruct (Hempty eq_refl) as (_ & _ & _).
  destruct (Hfilter Hq Hi) as (Hout & _ & _ & Hret).
  destruct (Hswap Hq eq_refl) as (Hout' & Hwait' & _).
  split; [reflexivity |].
  split; [exact Hout |].
  split; [apply Hret; simpl; lia |].
  split; [exact Hout' | exact Hwait'].
Defined.

Lemma listDir_records_entry_names_witness :
  In "file"%string (snd (listDir "/cache"%string sample_cache_dir []))
  /\ ~ In "."%string (snd (listDir "/cache"%string sample_cache_dir [])).
Proof.
  destruct (listDir_records_entry_names "/cache"%string sample_cache_dir [])
    as (added & Hout & Hdot & _ & _ & Hcompl).
  rewrite Hout. simpl. split; [| exact Hdot].
  apply Hcompl; [reflexivity |].
  unfold sample_cache_dir.
  constructor. do 3 apply Reach_later.
  apply Reach_below; [reflexivity | discriminate |].
  constructor. do 2 apply Reach_later.
  apply Reach_below; [reflexivity | discriminate |].
  constructor. do 2 apply Reach_later.
  apply Reach_here. reflexivity.
Defined.

End DiskCacheProofs.

(** * Further properties of the operator pipeline *)

Module MetaOpMore.

Import MetaOp MetaOpReplay.

Section Facts.

Context `{C : Collaborators}.

Ltac exec :=
  cbv [Propose ClosureGuard ProposeTask FastApplyTask Redirect RedirectRequest
       OnFailed OnApply OnApply_macro OnApply_GetOrModifyS3ChunkInfo
       OnApply_GetVolumeExtent MetaStoreCall UpdateAppliedIndex Run
       GetAppliedIndex GetTimeofDayUs LeaderTerm GetLeaderLeaseStatus
       IsLeaderTerm modify_response get_response emit bind ret run_task
       GetOperatorType done_ fast_task
       OnApplyFromLog OnApplyFromLog_macro OnApplyFromLog_readonly
       OnApplyFromLog_GetOrModifyS3ChunkInfo MetaStoreCallLocal
       with_trace with_response with_applied with_metastore with_ticks
       w_is_leader_term w_lease_status w_leader_term w_applied w_metastore
       w_response w_clock w_ticks w_trace fst snd];
  simpl.

Ltac views :=
  repeat rewrite <- app_assoc; simpl;
  unfold proposals, queued, closure_runs, applied_updates, metastore_calls,
    visible, metastore_requests, stream_accepts, metrics;
  repeat rewrite flat_map_app; simpl;
  repeat rewrite app_nil_r.

(** X1.  Propose on a node that is not the leader of the term, for every
    operator: the response status becomes REDIRECTED, the RPC closure runs
    seeing that status, and that is all Propose does: nothing reaches the
    metastore, the node or the apply queue, whatever the lease status and
    whatever the codec would answer. *)
Theorem Propose_stale_leader (op : MetaOperator) (w : World) :
  w_is_leader_term w = false ->
  let w' := snd (Propose op w) in
  w_trace w' =
    w_trace w ++ [EvRun (done_ op) (set_statuscode REDIRECTED (w_response w))]
  /\ w_response w' = set_statuscode REDIRECTED (w_response w)
  /\ metastore_calls (w_trace w') = metastore_calls (w_trace w)
  /\ proposals (w_trace w') = proposals (w_trace w)
  /\ queued (w_trace w') = queued (w_trace w)
  /\ w_applied w' = w_applied w
  /\ w_metastore w' = w_metastore w.
Proof.
  intros Hleader.
  destruct w as [ldr lease term applied ms resp clock ticks tr].
  simpl in Hleader. subst ldr. cbv zeta. exec. views. repeat split.
Qed.

(** X2.  Propose through the log with a codec that succeeds (the operator
    cannot bypass the log, or the lease is not ready or disabled): exactly
    one task is handed to the node, carrying the encoded request, a
    MetaOperatorClosure for this operator and the node's leader term as
    expected term; the RPC closure does not run and the response is left
    as it was. *)
Theorem Propose_through_log (op : MetaOperator) (w : World) (log : IOBuf) :
  w_is_leader_term w = true ->
  CanBypassPropose (op_type op) = false
  \/ w_lease_status w = LeaseNotReady
  \/ w_lease_status w = LeaseDisabled ->
  Encode (op_type op) (request_ op) = Some log ->
  let w' := snd (Propose op w) in
  w_trace w' =
    w_trace w ++
    [EvNodePropose {| task_data := log;
                      task_done := MetaOperatorClosure (done_id op);
                      expected_term := w_leader_term w |}]
  /\ closure_runs (w_trace w') = closure_runs (w_trace w)
  /\ queued (w_trace w') = queued (w_trace w)
  /\ w_response w' = w_response w.
Proof.
  intros Hleader Hpath Henc.
  destruct w as [ldr lease term applied ms resp clock ticks tr].
  simpl in Hleader, Hpath. subst ldr. cbv zeta. exec. rewrite Henc.
  destruct Hpath as [Hby | [Hlease | Hlease]];
    [ rewrite Hby | subst lease; destruct (CanBypassPropose (op_type op))
    | subst lease; destruct (CanBypassPropose (op_type op)) ];
    simpl; views; repeat split.
Qed.

(** X3.  What Propose never does, for every operator and every state of
    the node: it never calls the metastore and never moves the applied
    index; of the response it changes at most the status, and only to
    REDIRECTED or UNKNOWN_ERROR; and it pushes on the apply queue exactly
    when the node is leader, the operator is one of the read-only ones and
    the lease is held, the shard key then being the request's partition
    id.  In particular a mutating operator is never fast-applied. *)
Theorem Propose_frame (op : MetaOperator) (w : World) :
  let w' := snd (Propose op w) in
  metastore_calls (w_trace w') = metastore_calls (w_trace w)
  /\ applied_updates (w_trace w') = applied_updates (w_trace w)
  /\ w_applied w' = w_applied w
  /\ w_metastore w' = w_metastore w
  /\ (w_response w' = w_response w
      \/ w_response w' = set_statuscode REDIRECTED (w_response w)
      \/ w_response w' = set_statuscode UNKNOWN_ERROR (w_response w))
  /\ queued (w_trace w') =
       queued (w_trace w) ++
       (if w_is_leader_term w && CanBypassPropose (op_type op)
           && IsLeaseLeader (w_lease_status w)
        then [(partitionid (request_ op), op_type op, fast_task op w)]
        else []).
Proof.
  destruct w as [ldr lease term applied ms resp clock ticks tr].
  cbv zeta. exec. unfold HashCode.
  destruct ldr; simpl;
    [ destruct (op_type op) eqn:Hty; simpl;
      try (destruct lease; simpl);
      try (destruct (Encode _ (request_ op)); simpl) | ];
    views; repeat split; auto.
Qed.

(** X4.  OnApply of any operator generated by OPERATOR_ON_APPLY (readers
    and writers alike) whose metastore call returns a status other than
    OK: the response is exactly what the metastore left, its applied
    index is not stamped, the node's applied index is not touched, and the
    closure runs once seeing that response; the completion metric records
    a failure. *)
Theorem OnApply_macro_failure (op : MetaOperator) (index : Z) (done : Closure)
    (startTimeUs : Z) (w : World) (st : MetaStatusCode) (r : Response)
    (ms : MetaStoreState) :
  macro_on_apply (op_type op) = true ->
  metastore_call (op_type op) (request_ op) (w_response w) (w_metastore w)
    = (st, r, ms) ->
  st <> OK ->
  let w' := snd (OnApply op index done startTimeUs w) in
  w_response w' = r
  /\ w_applied w' = w_applied w
  /\ applied_updates (w_trace w') = applied_updates (w_trace w)
  /\ visible (w_trace w') = visible (w_trace w) ++ [Completed done r]
  /\ w_metastore w' = ms
  /\ exists wait exec_time total,
       metrics (w_trace w') =
         metrics (w_trace w) ++
         [WaitInQueueLatency (op_type op) wait;
          ExecuteLatency (op_type op) exec_time;
          OnOperatorComplete (op_type op) total false].
Proof.
  intros Hmacro Hms Hbad.
  destruct w as [ldr lease term applied ms0 resp clock ticks tr].
  simpl in Hms. cbv zeta. unfold OnApply.
  destruct (op_type op) eqn:Hty; try discriminate Hmacro;
    exec; rewrite Hms;
    destruct st; try (exfalso; apply Hbad; reflexivity);
    simpl; views; repeat split; do 3 eexists; reflexivity.
Qed.

(** X5.  OnApply of any operator generated by OPERATOR_ON_APPLY whose
    metastore call returns OK: the applied index is stamped before the
    closure runs, so the closure sees the response the metastore produced
    with only its applied index replaced; the completion metric records a
    success after the wait and execute samples. *)
Theorem OnApply_macro_success (op : MetaOperator) (index : Z) (done : Closure)
    (startTimeUs : Z) (w : World) (r : Response) (ms : MetaStoreState) :
  macro_on_apply (op_type op) = true ->
  metastore_call (op_type op) (request_ op) (w_response w) (w_metastore w)
    = (OK, r, ms) ->
  let w' := snd (OnApply op index done startTimeUs w) in
  let stamped :=
    set_appliedindex
      (Z.max (u64 index) (node_update_applied (u64 index) (w_applied w))) r in
  w_response w' = stamped
  /\ visible (w_trace w') = visible (w_trace w) ++ [Completed done stamped]
  /\ statuscode stamped = statuscode r
  /\ slices stamped = slices r
  /\ resp_body stamped = resp_body r
  /\ metastore_requests (w_trace w') =
       metastore_requests (w_trace w) ++ [(op_type op, request_ op)]
  /\ exists wait exec_time total,
       metrics (w_trace w') =
         metrics (w_trace w) ++
         [WaitInQueueLatency (op_type op) wait;
          ExecuteLatency (op_type op) exec_time;
          OnOperatorComplete (op_type op) total true].
Proof.
  intros Hmacro Hms.
  destruct w as [ldr lease term applied ms0 resp clock ticks tr].
  simpl in Hms. cbv zeta. unfold OnApply.
  destruct (op_type op) eqn:Hty; try discriminate Hmacro;
    exec; rewrite Hms; simpl; views; repeat split;
    do 3 eexists; reflexivity.
Qed.

(** X6.  GetOrModifyS3ChunkInfo: a stream accept is attempted exactly when
    the metastore returned OK and the request both asks for the chunk-info
    map and supports streaming; records are pushed exactly when, on top of
    that, the accept succeeded, and then the closure has run first and the
    iterator sent is the one the metastore produced. *)
Theorem S3ChunkInfo_streaming_decision (op : MetaOperator) (index : Z)
    (done : Closure) (startTimeUs : Z) (w : World)
    (st : MetaStatusCode) (r : Response) (ms : MetaStoreState) :
  op_type op = GetOrModifyS3ChunkInfo ->
  metastore_call GetOrModifyS3ChunkInfo (request_ op)
    (w_response w) (w_metastore w) = (st, r, ms) ->
  let w' := snd (OnApply op index done startTimeUs w) in
  let wanted := is_OK st && returns3chunkinfomap (request_ op)
                && supportstreaming (request_ op) in
  stream_accepts (w_trace w') =
    stream_accepts (w_trace w) ++ (if wanted then [cntl_ op] else [])
  /\ exists seen,
       visible (w_trace w') =
         visible (w_trace w) ++
         Completed done seen ::
         (if wanted then
            match stream_accept (cntl_ op) with
            | Some _ => [Streamed]
            | None => []
            end
          else [])
  /\ forall connection,
       wanted = true -> stream_accept (cntl_ op) = Some connection ->
       w_trace w' =
         w_trace w ++
         [EvMetaStore GetOrModifyS3ChunkInfo (request_ op);
          EvUpdateAppliedIndex (u64 index);
          EvMetric (OnOperatorComplete GetOrModifyS3ChunkInfo
                      (u64 (w_clock w (w_ticks w) - startTimeUs)) true);
          EvStreamAccept (cntl_ op);
          EvRun done seen;
          EvSendS3ChunkInfoByStream connection
            (metastore_iterator (request_ op) (w_metastore w))].
Proof.
  intros Hty Hms.
  destruct w as [ldr lease term applied ms0 resp clock ticks tr].
  simpl in Hms. cbv zeta. unfold OnApply. rewrite Hty.
  exec. rewrite Hms.
  destruct st; simpl;
    destruct (returns3chunkinfomap (request_ op)); simpl;
    destruct (supportstreaming (request_ op)); simpl;
    try (destruct (stream_accept (cntl_ op)) eqn:Hacc; simpl);
    views;
    (split; [reflexivity |]);
    eexists; (split; [reflexivity |]);
    intros connection Hw Hc; try discriminate;
    inversion Hc; subst; reflexivity.
Qed.

(** X7.  GetOrModifyS3ChunkInfo with a metastore result of OK, streaming
    wanted, and a stream accept that fails: the response status is
    overwritten with RPC_STREAM_ERROR and the closure sees it, nothing is
    streamed, but the mutation stands: the applied index has already been
    advanced and stamped on the response. *)
Theorem S3ChunkInfo_accept_failure (op : MetaOperator) (index : Z)
    (done : Closure) (startTimeUs : Z) (w : World)
    (r : Response) (ms : MetaStoreState) :
  op_type op = GetOrModifyS3ChunkInfo ->
  metastore_call GetOrModifyS3ChunkInfo (request_ op)
    (w_response w) (w_metastore w) = (OK, r, ms) ->
  returns3chunkinfomap (request_ op) = true ->
  supportstreaming (request_ op) = true ->
  stream_accept (cntl_ op) = None ->
  let w' := snd (OnApply op index done startTimeUs w) in
  let applied' := node_update_applied (u64 index) (w_applied w) in
  w_response w' =
    set_statuscode RPC_STREAM_ERROR
      (set_appliedindex (Z.max (u64 index) applied') r)
  /\ visible (w_trace w') = visible (w_trace w) ++ [Completed done (w_response w')]
  /\ applied_updates (w_trace w') = applied_updates (w_trace w) ++ [u64 index]
  /\ w_applied w' = applied'
  /\ w_metastore w' = ms.
Proof.
  intros Hty Hms Hmap Hsup Hacc.
  destruct w as [ldr lease term applied ms0 resp clock ticks tr].
  simpl in Hms. cbv zeta. unfold OnApply. rewrite Hty.
  exec. rewrite Hms. simpl. rewrite Hmap, Hsup. simpl. rewrite Hacc.
  simpl. views. repeat split.
Qed.

(** X8.  GetVolumeExtent, unlike every other operator, never calls
    UpdateAppliedIndex: on every path the node's applied index is what it
    was.  On OK the response's applied index is the index OnApply was
    given, not the maximum with what the node reports; on any other status
    the response is exactly what the metastore left. *)
Theorem GetVolumeExtent_leaves_applied_index (op : MetaOperator) (index : Z)
    (done : Closure) (startTimeUs : Z) (w : World)
    (st : MetaStatusCode) (r : Response) (ms : MetaStoreState) :
  op_type op = GetVolumeExtent ->
  metastore_call GetVolumeExtent (request_ op) (w_response w) (w_metastore w)
    = (st, r, ms) ->
  let w' := snd (OnApply op index done startTimeUs w) in
  applied_updates (w_trace w') = applied_updates (w_trace w)
  /\ w_applied w' = w_applied w
  /\ (st = OK -> appliedindex (w_response w') = Some (u64 index))
  /\ (st <> OK ->
        w_response w' = r
        /\ visible (w_trace w') = visible (w_trace w) ++ [Completed done r]
        /\ stream_accepts (w_trace w') = stream_accepts (w_trace w)).
Proof.
  intros Hty Hms.
  destruct w as [ldr lease term applied ms0 resp clock ticks tr].
  simpl in Hms. cbv zeta. unfold OnApply. rewrite Hty.
  exec. rewrite Hms.
  destruct st; simpl;
    try (destruct (streaming (request_ op)); simpl;
         try (destruct (stream_accept (cntl_ op)); simpl));
    views;
    (split; [reflexivity |]); (split; [reflexivity |]);
    (split;
     [ intros Hst; try discriminate Hst; reflexivity
     | intros Hst; try (exfalso; apply Hst; reflexivity); repeat split ]).
Qed.

(** X9.  GetVolumeExtent without streaming and with a metastore result of
    OK: the slices stay in the response, which is the metastore's answer
    with the applied index stamped; the closure sees them; no stream
    accept is attempted and nothing is streamed. *)
Theorem GetVolumeExtent_inline (op : MetaOperator) (index : Z)
    (done : Closure) (startTimeUs : Z) (w : World)
    (r : Response) (ms : MetaStoreState) :
  op_type op = GetVolumeExtent ->
  streaming (request_ op) = false ->
  metastore_call GetVolumeExtent (request_ op) (w_response w) (w_metastore w)
    = (OK, r, ms) ->
  let w' := snd (OnApply op index done startTimeUs w) in
  w_response w' = set_appliedindex (u64 index) r
  /\ slices (w_response w') = slices r
  /\ visible (w_trace w') =
       visible (w_trace w) ++ [Completed done (set_appliedindex (u64 index) r)]
  /\ stream_accepts (w_trace w') = stream_accepts (w_trace w).
Proof.
  intros Hty Hstream Hms.
  destruct w as [ldr lease term applied ms0 resp clock ticks tr].
  simpl in Hms. cbv zeta. unfold OnApply. rewrite Hty.
  exec. rewrite Hms. simpl. rewrite Hstream. simpl. views. repeat split.
Qed.

(** X10.  Replay from the log, for every operator: the operator's response
    is not written, no closure runs, the applied index is neither updated
    nor read into the response, and nothing is proposed, queued or
    streamed. *)
Theorem OnApplyFromLog_silent (op : MetaOperator) (startTimeUs : Z) (w : World) :
  let w' := snd (OnApplyFromLog op startTimeUs w) in
  w_response w' = w_response w
  /\ w_applied w' = w_applied w
  /\ visible (w_trace w') = visible (w_trace w)
  /\ applied_updates (w_trace w') = applied_updates (w_trace w)
  /\ proposals (w_trace w') = proposals (w_trace w)
  /\ queued (w_trace w') = queued (w_trace w)
  /\ stream_accepts (w_trace w') = stream_accepts (w_trace w).
Proof.
  destruct w as [ldr lease term applied ms0 resp clock ticks tr].
  cbv zeta. unfold OnApplyFromLog.
  destruct (op_type op) eqn:Hty; exec;
    try (destruct (metastore_call _ _ empty_response ms0) as [[st r] ms']);
    simpl; views; repeat split.
Qed.

(** X11.  Replay from the log reaches the metastore exactly for the
    operators that cannot bypass the log.  For a read-only operator replay
    does nothing at all: the world is unchanged and no sample is recorded.
    For a mutating operator the metastore is called once, with the
    operator's method and a fresh response; the request passed is the
    logged one, except that for GetOrModifyS3ChunkInfo the flag
    [returns3chunkinfomap] is cleared; the metastore state it leaves is
    kept and one from-log sample is recorded, a success exactly when the
    status is OK. *)
Theorem OnApplyFromLog_metastore (op : MetaOperator) (startTimeUs : Z) (w : World) :
  let sent :=
    match op_type op with
    | GetOrModifyS3ChunkInfo => set_returns3chunkinfomap false (request_ op)
    | _ => request_ op
    end in
  let answer :=
    metastore_call (op_type op) sent empty_response (w_metastore w) in
  let w' := snd (OnApplyFromLog op startTimeUs w) in
  metastore_requests (w_trace w') =
    metastore_requests (w_trace w) ++
    (if CanBypassPropose (op_type op) then [] else [(op_type op, sent)])
  /\ (CanBypassPropose (op_type op) = true ->
        OnApplyFromLog op startTimeUs w = ([], w))
  /\ (CanBypassPropose (op_type op) = false ->
        w_metastore w' = snd answer
        /\ fst (OnApplyFromLog op startTimeUs w) =
             [{| fl_type := op_type op;
                 fl_latency := u64 (w_clock w (w_ticks w) - startTimeUs);
                 fl_success := is_OK (fst (fst answer)) |}]
        /\ partitionid sent = partitionid (request_ op)
        /\ partition_partitionid sent = partition_partitionid (request_ op)
        /\ streaming sent = streaming (request_ op)
        /\ supportstreaming sent = supportstreaming (request_ op)
        /\ req_body sent = req_body (request_ op)).
Proof.
  destruct w as [ldr lease term applied ms0 resp clock ticks tr].
  cbv zeta. unfold OnApplyFromLog.
  destruct (op_type op) eqn:Hty; exec;
    try (destruct (metastore_call _ _ empty_response ms0) as [[st r] ms']);
    simpl; views;
    (split; [reflexivity |]);
    (split; [ intros Hro; try discriminate Hro; reflexivity
            | intros Hmut; try discriminate Hmut; repeat split ]).
Qed.

End Facts.

(** *** Runs on the sample collaborators *)

Lemma Propose_stale_leader_witness :
  let op := sample_operator CreateInode 4 0 false in
  let w' := snd (Propose op (sample_world false LeaseDisabled 5)) in
  w_trace w' = [EvRun (RpcDone 7) (set_statuscode REDIRECTED empty_response)]
  /\ statuscode (w_response w') = Some REDIRECTED.
Proof.
  intros op w'.
  destruct (Propose_stale_leader op (sample_world false LeaseDisabled 5) eq_refl)
    as (Htr & Hresp & _).
  split; [exact Htr | exact (f_equal statuscode Hresp)].
Defined.

Lemma Propose_through_log_witness :
  let op := sample_operator GetInode 4 9 false in
  let w' := snd (Propose op (sample_world true LeaseNotReady 5)) in
  proposals (w_trace w') =
    [{| task_data := [4; 9]; task_done := MetaOperatorClosure 7;
        expected_term := 3 |}]
  /\ closure_runs (w_trace w') = [].
Proof.
  intros op w'.
  destruct (Propose_through_log op (sample_world true LeaseNotReady 5) [4; 9]
              eq_refl (or_intror (or_introl eq_refl)) eq_refl)
    as (Htr & Hruns & _).
  split; [exact (f_equal proposals Htr) | exact Hruns].
Defined.

Lemma OnApply_macro_failure_witness :
  let op := sample_operator UpdateInode 4 (-1) false in
  let w' := snd (OnApply op 9 (MetaOperatorClosure 7) 990
                   (sample_world true LeaseDisabled 5)) in
  w_applied w' = 5
  /\ appliedindex (w_response w') = None
  /\ statuscode (w_response w') = Some (OtherCode 7).
Proof.
  intros op w'.
  assert (Hbad : OtherCode 7 <> OK) by discriminate.
  destruct (OnApply_macro_failure op 9 (MetaOperatorClosure 7) 990
              (sample_world true LeaseDisabled 5) _ _ _ eq_refl eq_refl Hbad)
    as (Hresp & Happlied & _).
  split; [exact Happlied |].
  split; [exact (f_equal appliedindex Hresp) | exact (f_equal statuscode Hresp)].
Defined.

Lemma OnApply_macro_success_witness :
  let op := sample_operator GetDentry 4 0 false in
  let done := MetaOperatorClosure 7 in
  let w' := snd (OnApply op 3 done 990 (sample_world true LeaseLeader 5)) in
  exists seen,
    visible (w_trace w') = [Completed done seen]
    /\ appliedindex seen = Some 5
    /\ slices seen = [10; 20; 30].
Proof.
  intros op done w'.
  destruct (OnApply_macro_success op 3 done 990
              (sample_world true LeaseLeader 5) _ _ eq_refl eq_refl)
    as (_ & Hvis & _ & Hslices & _).
  eexists. split; [exact Hvis |]. split; [reflexivity | exact Hslices].
Defined.

Lemma S3ChunkInfo_streaming_decision_witness :
  let streaming_op := sample_operator GetOrModifyS3ChunkInfo 4 0 true in
  let plain_op := sample_operator GetOrModifyS3ChunkInfo 4 0 false in
  let w := sample_world true LeaseDisabled 5 in
  let done := MetaOperatorClosure 7 in
  stream_accepts (w_trace (snd (OnApply streaming_op 9 done 990 w))) = [1]
  /\ stream_accepts (w_trace (snd (OnApply plain_op 9 done 990 w))) = [].
Proof.
  intros streaming_op plain_op w done.
  destruct (S3ChunkInfo_streaming_decision streaming_op 9 done 990 w _ _ _
              eq_refl eq_refl) as (Hyes & _).
  destruct (S3ChunkInfo_streaming_decision plain_op 9 done 990 w _ _ _
              eq_refl eq_refl) as (Hno & _).
  split; [exact Hyes | exact Hno].
Defined.

Lemma S3ChunkInfo_accept_failure_witness :
  let op := {| op_type := GetOrModifyS3ChunkInfo;
               request_ := sample_request 4 0 true;
               cntl_ := -1; done_id := 7%nat |} in
  let w' := snd (OnApply op 9 (MetaOperatorClosure 7) 990
                   (sample_world true LeaseDisabled 5)) in
  statuscode (w_response w') = Some RPC_STREAM_ERROR
  /\ appliedindex (w_response w') = Some 9
  /\ w_applied w' = 9.
Proof.
  intros op w'.
  destruct (S3ChunkInfo_accept_failure op 9 (MetaOperatorClosure 7) 990
              (sample_world true LeaseDisabled 5) _ _
              eq_refl eq_refl eq_refl eq_refl eq_refl)
    as (Hresp & _ & _ & Happlied & _).
  split; [exact (f_equal statuscode Hresp) |].
  split; [exact (f_equal appliedindex Hresp) | exact Happlied].
Defined.

Lemma GetVolumeExtent_leaves_applied_index_witness :
  let op := sample_operator GetVolumeExtent 4 0 false in
  let bad := sample_operator GetVolumeExtent 4 (-1) false in
  let w := sample_world true LeaseLeader 8 in
  let done := MetaOperatorClosure 7 in
  w_applied (snd (OnApply op 5 done 990 w)) = 8
  /\ appliedindex (w_response (snd (OnApply op 5 done 990 w))) = Some 5
  /\ appliedindex (w_response (snd (OnApply bad 5 done 990 w))) = None.
Proof.
  intros op bad w done.
  assert (Hbad : OtherCode 7 <> OK) by discriminate.
  destruct (GetVolumeExtent_leaves_applied_index op 5 done 990 w _ _ _
              eq_refl eq_refl) as (_ & Happlied & Hstamp & _).
  destruct (GetVolumeExtent_leaves_applied_index bad 5 done 990 w _ _ _
              eq_refl eq_refl) as (_ & _ & _ & Hpass).
  destruct (Hpass Hbad) as (Hresp & _).
  split; [exact Happlied |].
  split; [exact (Hstamp eq_refl) | exact (f_equal appliedindex Hresp)].
Defined.

Lemma GetVolumeExtent_inline_witness :
  let op := sample_operator GetVolumeExtent 4 0 false in
  let w' := snd (OnApply op 5 (MetaOperatorClosure 7) 990
                   (sample_world true LeaseLeader 8)) in
  slices (w_response w') = [10; 20; 30]
  /\ stream_accepts (w_trace w') = [].
Proof.
  intros op w'.
  destruct (GetVolumeExtent_inline op 5 (MetaOperatorClosure 7) 990
              (sample_world true LeaseLeader 8) _ _ eq_refl eq_refl eq_refl)
    as (_ & Hslices & _ & Hacc).
  split; [exact Hslices | exact Hacc].
Defined.

Lemma OnApplyFromLog_metastore_witness :
  let s3 := sample_operator GetOrModifyS3ChunkInfo 4 0 true in
  let reader := sample_operator ListDentry 4 0 false in
  let w := sample_world false LeaseDisabled 5 in
  metastore_requests (w_trace (snd (OnApplyFromLog s3 990 w))) =
    [(GetOrModifyS3ChunkInfo,
      set_returns3chunkinfomap false (sample_request 4 0 true))]
  /\ w_metastore (snd (OnApplyFromLog s3 990 w)) = 1%nat
  /\ OnApplyFromLog reader 990 w = ([], w).
Proof.
  intros s3 reader w.
  destruct (OnApplyFromLog_metastore s3 990 w) as (Hreq & _ & Hmut).
  destruct (OnApplyFromLog_metastore reader 990 w) as (_ & Hro & _).
  destruct (Hmut eq_refl) as (Hms & _).
  split; [exact Hreq | split; [exact Hms | exact (Hro eq_refl)]].
Defined.

End MetaOpMore.

(** * Further properties of the disk cache uploader *)

Module DiskCacheMoreProofs.

Import DiskCache DiskCacheMore.

Section Facts.

Context `{Env : Surroundings}.

Ltac all_views :=
  unfold removes, frees, signals, submissions, memsets, closes, opened,
    allocated, moved_back;
  repeat rewrite flat_map_app; simpl;
  repeat rewrite app_nil_r.

(** Every path of [ReadFile], with what it opened, allocated, closed and
    freed. *)
Ltac finish :=
  repeat split; try lia;
  try (let H := fresh in intros H; discriminate H).

Lemma ReadFile_accounting (name : string) (w : World) :
  let r := ReadFile name w in
  exists evs,
    w_trace (snd r) = w_trace w ++ evs
    /\ w_inflight (snd r) = w_inflight w
    /\ closes evs = opened evs
    /\ frees evs ++
       match fst r with
       | ReadOk buf _ => [buf_ptr buf]
       | ReadErr _ _ => []
       end = allocated evs
    /\ removes evs = [] /\ signals evs = [] /\ submissions evs = []
    /\ match fst r with
       | ReadOk _ _ => True
       | ReadErr ret _ => ret < 0
       end
    /\ (IsFileExist (GetCacheIoFullDir ++ "/" ++ name) = false -> evs = []).
Proof.
  cbv zeta. unfold ReadFile. cbv zeta.
  remember (GetCacheIoFullDir ++ "/" ++ name)%string as path eqn:Hpath.
  destruct w as [inflight tr].
  destruct (IsFileExist path) eqn:Hex.
  2:{ exists []. cbv [bind emit ret fst snd w_trace w_inflight negb].
      rewrite app_nil_r. repeat split; try lia. }
  destruct (posix_stat path) as [sret st_size] eqn:Hstat.
  cbv [bind emit ret negb].
  destruct (sret <? 0) eqn:Hs.
  { eexists. cbn [fst snd w_trace w_inflight].
    split; [reflexivity |]. all_views. finish. }
  destruct (posix_open path <? 0) eqn:Ho.
  { eexists. cbn [fst snd w_trace w_inflight].
    split; [rewrite <- app_assoc; reflexivity |]. all_views. rewrite Ho.
    apply Z.ltb_lt in Ho. finish. }
  destruct (posix_malloc (u64 (st_size * 1 + 1))) as [ptr |] eqn:Hm.
  2:{ eexists. cbn [fst snd w_trace w_inflight].
      split; [repeat rewrite <- app_assoc; reflexivity |].
      all_views. rewrite Ho, Hm. finish. }
  destruct (posix_memset ptr) eqn:Hset.
  2:{ eexists. cbn [fst snd w_trace w_inflight].
      split; [repeat rewrite <- app_assoc; reflexivity |].
      all_views. rewrite Ho, Hm. finish. }
  destruct (posix_read (posix_open path) (u64 st_size)) as [delivered |] eqn:Hr.
  2:{ eexists. cbn [fst snd w_trace w_inflight].
      split; [repeat rewrite <- app_assoc; reflexivity |].
      all_views. rewrite Ho, Hm. finish. }
  destruct (Z.of_nat (List.length (firstn (Z.to_nat (u64 st_size)) delivered))
            <? st_size) eqn:Hshort.
  { eexists. cbn [fst snd w_trace w_inflight].
    split; [repeat rewrite <- app_assoc; reflexivity |].
    all_views. rewrite Ho, Hm. finish. }
  eexists. cbn [fst snd w_trace w_inflight].
  split; [repeat rewrite <- app_assoc; reflexivity |].
  all_views. rewrite Ho, Hm. finish.
Qed.

(** X12.  [ReadFile] leaks nothing on any of its paths: the descriptors it
    closes are exactly those that [open] handed out, each once; every
    buffer that [malloc] handed out is either freed, once, or is the
    buffer returned; every error return is negative; it removes, signals
    and submits nothing; and for a file that does not exist it makes no
    call at all. *)
Theorem ReadFile_balanced (name : string) (w : World) :
  let r := ReadFile name w in
  exists evs,
    w_trace (snd r) = w_trace w ++ evs
    /\ w_inflight (snd r) = w_inflight w
    /\ closes evs = opened evs
    /\ frees evs ++
       match fst r with
       | ReadOk buf _ => [buf_ptr buf]
       | ReadErr _ _ => []
       end = allocated evs
    /\ removes evs = [] /\ signals evs = [] /\ submissions evs = []
    /\ match fst r with
       | ReadOk _ _ => True
       | ReadErr ret _ => ret < 0
       end
    /\ (IsFileExist (GetCacheIoFullDir ++ "/" ++ name) = false -> evs = []).
Proof.
  exact (ReadFile_accounting name w).
Qed.

(** One call of [UploadFile(name, syncTask)]. *)
Lemma UploadFile_step (name : string) (syncTask : option nat) (w : World) :
  let r := UploadFile name syncTask w in
  exists evs,
    w_trace (snd r) = w_trace w ++ evs
    /\ frees evs ++ map (fun c => buf_ptr (buffer c)) (submissions evs)
       = allocated evs
    /\ removes evs = []
    /\ ((fst r = 0 /\ signals evs = []
         /\ exists c,
              submissions evs = [c]
              /\ w_inflight (snd r) = w_inflight w ++ [c]
              /\ key c = name
              /\ cb c = UploadFileCb (buffer c) syncTask name)
        \/ (fst r = -1 /\ submissions evs = []
            /\ w_inflight (snd r) = w_inflight w
            /\ signals evs = match syncTask with Some t => [t] | None => [] end)).
Proof.
  cbv zeta.
  destruct (ReadFile_accounting name w)
    as (evs & Htr & Hin & _ & Hbal & Hrem & Hsig & Hsub & _ & _).
  unfold UploadFile, bind.
  destruct (ReadFile name w) as [res w1].
  cbn [fst snd] in Htr, Hin, Hbal.
  destruct w1 as [inflight1 tr1]. cbn [w_trace w_inflight] in Htr, Hin.
  subst inflight1 tr1.
  destruct res as [buf size | rc size].
  - eexists. unfold UploadAsync, bind, emit, ret.
    cbn [fst snd w_trace w_inflight].
    split; [rewrite <- app_assoc; reflexivity |].
    unfold removes, frees, signals, submissions, allocated in *.
    repeat rewrite flat_map_app. rewrite Hrem, Hsig, Hsub. simpl.
    repeat rewrite app_nil_r.
    split; [exact Hbal |]. split; [reflexivity |].
    left. split; [reflexivity |]. split; [reflexivity |].
    eexists. repeat split.
  - destruct syncTask as [t |]; unfold Signal, bind, emit, ret;
      cbn [fst snd w_trace w_inflight].
    + eexists. split; [rewrite <- app_assoc; reflexivity |].
      unfold removes, frees, signals, submissions, allocated in *.
      repeat rewrite flat_map_app. rewrite Hrem, Hsig, Hsub. simpl.
      repeat rewrite app_nil_r. rewrite app_nil_r in Hbal.
      split; [exact Hbal |]. split; [reflexivity |].
      right. repeat split.
    + exists evs. split; [reflexivity |].
      unfold removes, frees, signals, submissions, allocated in *.
      rewrite Hsub. simpl. rewrite app_nil_r in Hbal |- *.
      split; [exact Hbal |]. split; [exact Hrem |].
      right. repeat split. exact Hsig.
Qed.

(** X13.  One call of [UploadFile(name, syncTask)] either hands exactly one
    context to the object-store client and returns 0, without signalling,
    or returns -1 having submitted nothing and signalled the barrier once
    if one was given: never both, never neither.  The buffer it allocated
    is then owned by the submitted context, or has been freed; the staged
    file is not removed by the call itself. *)
Theorem UploadFile_signals_or_submits (name : string) (syncTask : option nat)
    (w : World) :
  let r := UploadFile name syncTask w in
  exists evs,
    w_trace (snd r) = w_trace w ++ evs
    /\ frees evs ++ map (fun c => buf_ptr (buffer c)) (submissions evs)
       = allocated evs
    /\ removes evs = []
    /\ ((fst r = 0 /\ signals evs = []
         /\ exists c,
              submissions evs = [c]
              /\ w_inflight (snd r) = w_inflight w ++ [c]
              /\ key c = name
              /\ cb c = UploadFileCb (buffer c) syncTask name)
        \/ (fst r = -1 /\ submissions evs = []
            /\ w_inflight (snd r) = w_inflight w
            /\ signals evs = match syncTask with Some t => [t] | None => [] end)).
Proof.
  exact (UploadFile_step name syncTask w).
Qed.

Lemma length_without_nth {A} (l : list A) (i : nat) (x : A) :
  nth_error l i = Some x ->
  (List.length (firstn i l ++ skipn (S i) l) + 1 = List.length l)%nat.
Proof.
  revert i. induction l as [| y l IH]; intros [| i] H; simpl in *;
    try discriminate.
  - rewrite Nat.add_comm. reflexivity.
  - rewrite <- (IH i H). reflexivity.
Qed.

Lemma Forall_without_nth {A} (P : A -> Prop) (l : list A) (i : nat) :
  Forall P l -> Forall P (firstn i l ++ skipn (S i) l).
Proof.
  intros H. revert i.
  induction H as [| x l Hx Hl IH]; intros [| i]; simpl.
  - constructor.
  - constructor.
  - exact Hl.
  - constructor; [exact Hx | apply IH].
Qed.











(** *** The pending queue *)

Lemma filter_split_permutation {A} (p : A -> bool) (l : list A) :
  Permutation (filter p l ++ filter (fun x => negb (p x)) l) l.
Proof.
  induction l as [| x l IH]; simpl; [constructor |].
  destruct (p x); simpl.
  - constructor. exact IH.
  - apply Permutation_sym, Permutation_cons_app, Permutation_sym. exact IH.
Qed.

Lemma filter_rejected_nil {A} (p : A -> bool) (l : list A) :
  filter p (filter (fun x => negb (p x)) l) = [].
Proof.
  induction l as [| x l IH]; simpl; [reflexivity |].
  destruct (p x) eqn:E; simpl; [exact IH |].
  rewrite E. exact IH.
Qed.

Lemma filter_rejected_idem {A} (p : A -> bool) (l : list A) :
  filter (fun x => negb (p x)) (filter (fun x => negb (p x)) l)
  = filter (fun x => negb (p x)) l.
Proof.
  induction l as [| x l IH]; simpl; [reflexivity |].
  destruct (p x) eqn:E; simpl; [exact IH |].
  rewrite E. simpl. rewrite IH. reflexivity.
Qed.

Lemma drain_filter (p : string -> bool) (l toUpload : list string) :
  remove_if_emplace p l toUpload
  = (filter (fun x => negb (p x)) l, toUpload ++ filter p l).
Proof.
  revert toUpload.
  induction l as [| x rest IH]; intros toUpload; simpl.
  - rewrite app_nil_r. reflexivity.
  - destruct (p x); simpl.
    + rewrite IH, <- app_assoc. reflexivity.
    + rewrite IH. reflexivity.
Qed.

(** X15.  [GetUploadFile] neither loses nor duplicates a name: whatever
    the inode and whatever the two lists held, the output list and the
    pending queue afterwards hold, together, exactly the names that the
    two held before. *)
Theorem GetUploadFile_conserves (inode : string)
    (waitUpload toUpload : list string) :
  let r := GetUploadFile inode waitUpload toUpload in
  Permutation (snd r ++ snd (fst r)) (toUpload ++ waitUpload).
Proof.
  cbv zeta. unfold GetUploadFile.
  destruct waitUpload as [| x rest]; [apply Permutation_refl |].
  destruct (string_empty inode).
  - cbn [fst snd]. apply Permutation_app_comm.
  - rewrite drain_filter. cbn [fst snd].
    rewrite <- app_assoc. apply Permutation_app_head.
    apply filter_split_permutation.
Qed.

Lemma enqueue_all (names queue : list string) :
  fold_left (fun q n => AsyncUploadEnqueue n q) names queue = queue ++ names.
Proof.
  revert queue. induction names as [| n names IH]; intros queue; simpl.
  - rewrite app_nil_r. reflexivity.
  - rewrite IH. unfold AsyncUploadEnqueue. rewrite <- app_assoc. reflexivity.
Qed.

(** X16.  Names enqueued one by one on an empty queue and then drained
    into a cleared list, as both callers of [GetUploadFile] do: the drain
    hands out the names of the inode (all names, for the empty inode) in
    the order they were enqueued, returns their number, and keeps the
    others queued in order; a second drain for the same inode right after
    hands out nothing, returns 0 and leaves the queue alone, which is what
    ends the loop of [UploadFileByInode]. *)
Theorem enqueue_drain_round_trip (inode : string) (names : list string) :
  Z.of_nat (List.length names) < 2 ^ 31 ->
  let matches := fun filename => ValidNameOfInode inode filename objectPrefix_ in
  let queue := fold_left (fun q n => AsyncUploadEnqueue n q) names [] in
  let first := GetUploadFile inode queue [] in
  let second := GetUploadFile inode (snd (fst first)) [] in
  snd first = (if string_empty inode then names else filter matches names)
  /\ snd (fst first) =
       (if string_empty inode then []
        else filter (fun n => negb (matches n)) names)
  /\ fst (fst first) = Z.of_nat (List.length (snd first))
  /\ second = (0, snd (fst first), []).
Proof.
  intros Hfit. cbv zeta. rewrite enqueue_all. cbn [app].
  unfold GetUploadFile.
  destruct names as [| n names]; [destruct (string_empty inode); repeat split |].
  destruct (string_empty inode) eqn:Hinode.
  - cbn [fst snd]. repeat split. apply DiskCacheProofs.i32_small.
    pose proof (Nat2Z.is_nonneg (List.length (n :: names))). lia.
  - rewrite drain_filter. cbn [fst snd app].
    assert (Hlen : 0 <= Z.of_nat (List.length
                     (filter (fun f => ValidNameOfInode inode f objectPrefix_)
                        (n :: names))) < 2 ^ 31).
    { pose proof (filter_length_le
                    (fun f => ValidNameOfInode inode f objectPrefix_)
                    (n :: names)). lia. }
    split; [reflexivity |]. split; [reflexivity |].
    split; [apply DiskCacheProofs.i32_small; exact Hlen |].
    pose proof (filter_rejected_nil
                  (fun f => ValidNameOfInode inode f objectPrefix_)
                  (n :: names)) as Hnone.
    pose proof (filter_rejected_idem
                  (fun f => ValidNameOfInode inode f objectPrefix_)
                  (n :: names)) as Hidem.
    cbv beta in Hnone, Hidem.
    remember (filter (fun x => negb (ValidNameOfInode inode x objectPrefix_))
                (n :: names)) as kept eqn:Hkept in *.
    clear Hkept.
    destruct kept as [| y kept]; [reflexivity |].
    rewrite drain_filter, Hnone, Hidem. reflexivity.
Qed.

(** X22.  [UploadFile] of a staged file that exists, opens, and is read in
    full returns 0 and hands the object-store client one context that
    carries the file: the key is the file name, the size is the size
    [stat] reported, and the buffer holds the bytes [read] delivered,
    followed by the one spare cell that was allocated and never written.
    The descriptor is closed before the submission; nothing is freed or
    removed by the call. *)
Theorem UploadFile_carries_file_content (name : string)
    (syncTask : option nat) (w : World) (sret fd ptr : Z) (data : list byte) :
  let path := (GetCacheIoFullDir ++ "/" ++ name)%string in
  let len := Z.of_nat (List.length data) in
  IsFileExist path = true ->
  posix_stat path = (sret, len) -> 0 <= sret ->
  len + 1 < 2 ^ 64 ->
  posix_open path = fd -> 0 <= fd ->
  posix_malloc (len + 1) = Some ptr ->
  posix_memset ptr = true ->
  posix_read fd len = Some data ->
  let buf := {| buf_ptr := ptr; buf_cells := map Some data ++ [None] |} in
  let context := {| key := name; buffer := buf; bufferSize := len;
                    cb := UploadFileCb buf syncTask name; retCode := 0 |} in
  UploadFile name syncTask w =
    (0, {| w_inflight := w_inflight w ++ [context];
           w_trace := w_trace w ++
                      [EvStat path; EvOpen path; EvMalloc (len + 1);
                       EvMemset ptr char_0 len; EvRead fd len; EvClose fd;
                       EvUploadAsync context] |}).
Proof.
  cbv zeta. intros Hex Hstat Hsret Hlen Hopen Hfd Hmalloc Hmemset Hread.
  pose proof (DiskCacheProofs.ReadFile_success name w sret fd ptr data
                Hex Hstat Hsret Hlen Hopen Hfd Hmalloc Hmemset Hread) as Hrf.
  cbv zeta in Hrf.
  unfold UploadFile, bind. rewrite Hrf.
  unfold UploadAsync, bind, emit, ret. cbn [fst snd w_trace w_inflight].
  rewrite <- app_assoc. reflexivity.
Qed.

(** X23.  The callback of [UploadFile] on a completion whose return code is
    not negative: it records the metrics that are configured, removes the
    staged file named by the context's key, tells the residency index only
    if the removal succeeded, and then frees the buffer and signals the
    barrier whether or not the removal succeeded; the context leaves the
    client and nothing is submitted again. *)
Theorem upload_callback_success (c : PutObjectAsyncContext) (buf : Buffer)
    (syncTask : option nat) (name : string) (rc : Z)
    (others : list PutObjectAsyncContext) (tr : list Event) :
  cb c = UploadFileCb buf syncTask name ->
  0 <= rc ->
  let path := (GetCacheIoFullDir ++ "/" ++ key c)%string in
  client_complete rc {| w_inflight := c :: others; w_trace := tr |} =
    (tt, {| w_inflight := others;
            w_trace :=
              tr ++
              (if metric_ then [EvCollectMetrics (bufferSize c)] else []) ++
              (if s3Metric_ then [EvAsyncContextCollectMetrics (key c)]
               else []) ++
              [EvRemove path] ++
              (if posix_remove path <? 0 then [] else [EvMoveBack (key c)]) ++
              [EvFree (buf_ptr buf)] ++
              match syncTask with Some t => [EvSignal t] | None => [] end |}).
Proof.
  cbv zeta. intros Hcb Hrc.
  unfold client_complete. cbn [w_inflight w_trace].
  destruct c as [k b bs cbk rcode].
  unfold invoke, with_retCode.
  cbn [cb key buffer bufferSize retCode] in *. subst cbk.
  unfold UploadFile_cb. cbn [cb key buffer bufferSize retCode].
  destruct (0 <=? rc) eqn:E; [| apply Z.leb_gt in E; lia].
  unfold RemoveFile, Signal, bind, emit, ret.
  remember (GetCacheIoFullDir ++ "/" ++ k)%string as path.
  destruct metric_, s3Metric_, (posix_remove path <? 0), syncTask;
    cbn [fst snd w_trace w_inflight app];
    repeat rewrite <- app_assoc; reflexivity.
Qed.

End Facts.

Section WriterFacts.

Context `{Env : Surroundings} `{Wr : WriteSurroundings}.

(** X17.  [WriteDiskFile] for a buffer of fewer than 2^31 bytes and a
    [write] that never reports more than it was asked: the descriptors it
    closes are exactly those [open] handed out, each once, on every path;
    it writes at most once (a short write is a failure, not retried) and
    calls [fdatasync] only when [force] is set; it returns [length]
    exactly when the directory step, the open, the whole write, the sync
    if forced, and the close all succeeded, and a negative value
    otherwise. *)
Theorem WriteDiskFile_protocol (fileName : string) (buf : list byte)
    (length : Z) (force : bool) :
  0 <= length < 2 ^ 31 ->
  (forall fd, posix_write fd buf length <= length) ->
  let r := WriteDiskFile fileName buf length force in
  let path := (GetCacheIoFullDir ++ "/" ++ fileName)%string in
  let fd := posix_open_create path in
  let all_ok :=
    (negb (negb (objectPrefix_ =? 0) && (CreateDir path <? 0)))
    && (0 <=? fd)
    && (posix_write fd buf length =? length)
    && (negb force || (0 <=? posix_fdatasync fd))
    && (0 <=? posix_close fd) in
  write_closes (snd r) = write_opened (snd r)
  /\ (List.length (write_writes (snd r)) <= 1)%nat
  /\ (force = false -> write_syncs (snd r) = [])
  /\ (if all_ok then fst r = length else fst r < 0).
Proof.
  intros Hlen Hwrite. cbv zeta. unfold WriteDiskFile. cbv zeta.
  remember (GetCacheIoFullDir ++ "/" ++ fileName)%string as path eqn:Hpath.
  assert (Hi64 : i64 length = length).
  { unfold i64. rewrite Z.mod_small; lia. }
  rewrite Hi64.
  specialize (Hwrite (posix_open_create path)).
  destruct (objectPrefix_ =? 0); cbn [negb andb];
    try destruct (CreateDir path <? 0) eqn:Hdir; cbn [negb andb];
    try (cbn [fst snd]; unfold write_closes, write_opened, write_writes,
           write_syncs; simpl; repeat split; lia);
    (destruct (posix_open_create path <? 0) eqn:Hopen;
     [ apply Z.ltb_lt in Hopen;
       assert (Hge : (0 <=? posix_open_create path) = false)
         by (apply Z.leb_gt; lia);
       rewrite Hge; cbn [fst snd andb];
       unfold write_closes, write_opened, write_writes, write_syncs;
       repeat rewrite flat_map_app; simpl;
       assert (Hlt : (posix_open_create path <? 0) = true)
         by (apply Z.ltb_lt; lia);
       rewrite Hlt; repeat split; lia
     | assert (Hge : (0 <=? posix_open_create path) = true)
         by (apply Z.leb_le; apply Z.ltb_ge in Hopen; lia);
       rewrite Hge; cbn [andb];
       destruct (posix_write (posix_open_create path) buf length <? length)
         eqn:Hshort;
       [ apply Z.ltb_lt in Hshort;
         assert (Hne : (posix_write (posix_open_create path) buf length
                        =? length) = false) by (apply Z.eqb_neq; lia);
         rewrite Hne; cbn [fst snd andb]
       | apply Z.ltb_ge in Hshort;
         assert (Heq : (posix_write (posix_open_create path) buf length
                        =? length) = true) by (apply Z.eqb_eq; lia);
         rewrite Heq; apply Z.eqb_eq in Heq; cbn [andb];
         destruct force; cbn [negb orb andb];
         try (destruct (posix_fdatasync (posix_open_create path) <? 0)
                eqn:Hsync;
              [ assert (Hs : (0 <=? posix_fdatasync (posix_open_create path))
                             = false)
                  by (apply Z.leb_gt; apply Z.ltb_lt in Hsync; lia)
              | assert (Hs : (0 <=? posix_fdatasync (posix_open_create path))
                             = true)
                  by (apply Z.leb_le; apply Z.ltb_ge in Hsync; lia) ];
              rewrite Hs; cbn [andb]);
         try (destruct (posix_close (posix_open_create path) <? 0) eqn:Hclose;
              [ assert (Hc : (0 <=? posix_close (posix_open_create path))
                             = false)
                  by (apply Z.leb_gt; apply Z.ltb_lt in Hclose; lia)
              | assert (Hc : (0 <=? posix_close (posix_open_create path))
                             = true)
                  by (apply Z.leb_le; apply Z.ltb_ge in Hclose; lia) ];
              rewrite Hc) ];
       cbn [fst snd];
       unfold write_closes, write_opened, write_writes, write_syncs;
       repeat rewrite flat_map_app; simpl; rewrite Hopen;
       repeat split; try lia; try discriminate;
       try (rewrite Heq; unfold i32; rewrite Z.mod_small; lia) ]).
Qed.

End WriterFacts.

(** *** Runs on the sample surroundings *)

Lemma UploadFile_carries_file_content_witness :
  let buf := {| buf_ptr := 4096;
                buf_cells := [Some x61; Some x62; Some x63; None] |} in
  let context := {| key := "obj"%string; buffer := buf; bufferSize := 3;
                    cb := UploadFileCb buf (Some 1%nat) "obj"%string;
                    retCode := 0 |} in
  @UploadFile sample_surroundings "obj"%string (Some 1%nat) empty_world =
    (0, {| w_inflight := [context];
           w_trace := [EvStat "/cache/obj"%string; EvOpen "/cache/obj"%string;
                       EvMalloc 4; EvMemset 4096 char_0 3; EvRead 5 3;
                       EvClose 5; EvUploadAsync context] |}).
Proof.
  assert (H0 : 0 <= 0) by lia.
  assert (H5 : 0 <= 5) by lia.
  exact (@UploadFile_carries_file_content sample_surroundings "obj"%string
           (Some 1%nat) empty_world 0 5 4096 [x61; x62; x63]
           eq_refl eq_refl H0 eq_refl eq_refl H5 eq_refl eq_refl eq_refl).
Defined.

Lemma upload_callback_success_witness :
  let buf := {| buf_ptr := 4096;
                buf_cells := [Some x61; Some x62; Some x63; None] |} in
  let context := {| key := "obj"%string; buffer := buf; bufferSize := 3;
                    cb := UploadFileCb buf (Some 1%nat) "obj"%string;
                    retCode := 0 |} in
  @client_complete sample_surroundings 0
    {| w_inflight := [context]; w_trace := [] |} =
    (tt, {| w_inflight := [];
            w_trace := [EvCollectMetrics 3; EvRemove "/cache/obj"%string;
                        EvMoveBack "obj"%string; EvFree 4096;
                        EvSignal 1%nat] |}).
Proof.
  intros buf context.
  assert (H0 : 0 <= 0) by lia.
  exact (@upload_callback_success sample_surroundings context buf
           (Some 1%nat) "obj"%string 0 [] [] eq_refl H0).
Defined.


Lemma enqueue_drain_round_trip_witness :
  let names := ["42_a"; "7_b"; "42_c"]%string in
  let queue := fold_left (fun q n => AsyncUploadEnqueue n q) names [] in
  @GetUploadFile sample_surroundings "42"%string queue []
    = (2, ["7_b"]%string, ["42_a"; "42_c"]%string)
  /\ @GetUploadFile sample_surroundings "42"%string ["7_b"]%string []
     = (0, ["7_b"]%string, []).
Proof.
  intros names queue.
  assert (Hfit : Z.of_nat (List.length names) < 2 ^ 31) by (simpl; lia).
  destruct (@enqueue_drain_round_trip sample_surroundings "42"%string names Hfit)
    as (_ & _ & _ & Hsecond).
  split; [reflexivity | exact Hsecond].
Defined.

Lemma WriteDiskFile_protocol_witness :
  let buf := [x61; x62; x63] in
  fst (@WriteDiskFile sample_surroundings sample_write_surroundings
         "full"%string buf 3 true) = 3
  /\ fst (@WriteDiskFile sample_surroundings sample_write_surroundings
            "part"%string buf 3 true) < 0
  /\ fst (@WriteDiskFile sample_surroundings sample_write_surroundings
            "nosync"%string buf 3 true) < 0
  /\ fst (@WriteDiskFile sample_surroundings sample_write_surroundings
            "nosync"%string buf 3 false) = 3.
Proof.
  intros buf.
  assert (Hlen : 0 <= 3 < 2 ^ 31) by lia.
  assert (Hwrite : forall fd,
            @posix_write sample_write_surroundings fd buf 3 <= 3).
  { intros fd. simpl. destruct (fd =? 6); lia. }
  destruct (@WriteDiskFile_protocol sample_surroundings
              sample_write_surroundings "full"%string buf 3 true Hlen Hwrite)
    as (_ & _ & _ & H1).
  destruct (@WriteDiskFile_protocol sample_surroundings
              sample_write_surroundings "part"%string buf 3 true Hlen Hwrite)
    as (_ & _ & _ & H2).
  destruct (@WriteDiskFile_protocol sample_surroundings
              sample_write_surroundings "nosync"%string buf 3 true Hlen Hwrite)
    as (_ & _ & _ & H3).
  destruct (@WriteDiskFile_protocol sample_surroundings
              sample_write_surroundings "nosync"%string buf 3 false Hlen Hwrite)
    as (_ & _ & _ & H4).
  split; [exact H1 |]. split; [exact H2 |]. split; [exact H3 | exact H4].
Defined.

End DiskCacheMoreProofs.

(** * Properties of starting and stopping the uploader thread *)

Module LifecycleProofs.

Import Lifecycle.

Lemma count_event_app (e : ThreadEvent) (t1 t2 : list ThreadEvent) :
  count_event e (t1 ++ t2) = (count_event e t1 + count_event e t2)%nat.
Proof.
  unfold count_event. rewrite filter_app, length_app. reflexivity.
Qed.

Lemma calls_accounting (cs : list Call) :
  forall u,
  waitUpload_ u = [] ->
  exists rets u',
    calls cs u = Some (rets, u')
    /\ waitUpload_ u' = []
    /\ List.length rets = List.length cs
    /\ count_event Spawned (thread_events u')
       = (count_event Spawned (thread_events u) + count_return Run 0 rets)%nat
    /\ count_event Joined (thread_events u')
       = (count_event Joined (thread_events u) + count_return Stop (-1) rets)%nat
    /\ (count_return Run 0 rets + alive u
        = count_return Stop (-1) rets + alive u')%nat
    /\ Forall (fun x => snd x = 0 \/ snd x = -1) rets.
Proof.
  induction cs as [| c cs IH]; intros u Hq.
  - exists [], u. unfold count_return. simpl.
    repeat split; try assumption; try lia. constructor.
  - destruct c; simpl.
    + unfold AsyncUploadRun.
      destruct (isRunning_ u) eqn:Hrun.
      * destruct (IH u Hq) as (rets & u' & Hc & Hq' & Hlen & Hs & Hj & Hal & Hall).
        rewrite Hc. exists ((Run, -1) :: rets), u'.
        unfold count_return in *. simpl.
        repeat split; try assumption; try (simpl; lia).
        constructor; [right; reflexivity | exact Hall].
      * set (u1 := {| isRunning_ := true; waitUpload_ := waitUpload_ u;
                      thread_events := thread_events u ++ [Spawned] |}).
        destruct (IH u1 Hq) as (rets & u' & Hc & Hq' & Hlen & Hs & Hj & Hal & Hall).
        rewrite Hc. exists ((Run, 0) :: rets), u'.
        unfold u1 in Hs, Hj, Hal. simpl in Hs, Hj, Hal.
        rewrite count_event_app in Hs, Hj.
        unfold alive in *. rewrite Hrun. simpl in Hal.
        unfold count_return, count_event in *. simpl in *.
        repeat split; try assumption; try lia.
        constructor; [left; reflexivity | exact Hall].
    + unfold AsyncUploadStop. rewrite Hq.
      destruct (isRunning_ u) eqn:Hrun.
      * set (u1 := {| isRunning_ := false; waitUpload_ := [];
                      thread_events := thread_events u ++ [Interrupted; Joined] |}).
        destruct (IH u1 eq_refl)
          as (rets & u' & Hc & Hq' & Hlen & Hs & Hj & Hal & Hall).
        rewrite Hc. exists ((Stop, -1) :: rets), u'.
        unfold u1 in Hs, Hj, Hal. simpl in Hs, Hj, Hal.
        rewrite count_event_app in Hs, Hj.
        unfold alive in *. rewrite Hrun. simpl in Hal.
        unfold count_return, count_event in *. simpl in *.
        repeat split; try assumption; try lia.
        constructor; [right; reflexivity | exact Hall].
      * destruct (IH u Hq) as (rets & u' & Hc & Hq' & Hlen & Hs & Hj & Hal & Hall).
        rewrite Hc. exists ((Stop, 0) :: rets), u'.
        unfold count_return in *. simpl.
        repeat split; try assumption; try (simpl; lia).
        constructor; [left; reflexivity | exact Hall].
Qed.

(** X18.  Any sequence of AsyncUploadRun and AsyncUploadStop calls on an
    uploader whose queue is empty: no call blocks; a thread is spawned
    exactly by the Run calls that return 0 and joined exactly by the Stop
    calls that return -1 (Stop returns 0 only when there was nothing to
    stop, Run returns -1 only when the thread was already there); so at
    most one uploader thread exists at any time, and it exists exactly
    when [isRunning_] is set. *)
Theorem run_stop_accounting (cs : list Call) :
  exists rets u,
    calls cs fresh_uploader = Some (rets, u)
    /\ List.length rets = List.length cs
    /\ count_event Spawned (thread_events u) = count_return Run 0 rets
    /\ count_event Joined (thread_events u) = count_return Stop (-1) rets
    /\ count_event Spawned (thread_events u)
       = (count_event Joined (thread_events u)
          + (if isRunning_ u then 1 else 0))%nat
    /\ Forall (fun x => snd x = 0 \/ snd x = -1) rets.
Proof.
  destruct (calls_accounting cs fresh_uploader eq_refl)
    as (rets & u & Hc & _ & Hlen & Hs & Hj & Hal & Hall).
  exists rets, u. simpl in Hs, Hj. unfold alive in Hal. simpl in Hal.
  repeat split; try assumption; lia.
Qed.

End LifecycleProofs.

(** * Properties of UploadAllCacheWriteFile *)

Module UploadAllProofs.

Import DiskCache DiskCacheMore UploadAll.

Section Facts.

Context `{Env : Surroundings} `{Paths : PathSurroundings}.

Lemma cond_signals_app (t1 t2 : list AllEvent) :
  cond_signals (t1 ++ t2) = (cond_signals t1 + cond_signals t2)%nat.
Proof.
  unfold cond_signals. rewrite filter_app, length_app. reflexivity.
Qed.

Lemma cond_signals_base (l : list Event) : cond_signals (map Base l) = 0%nat.
Proof.
  unfold cond_signals. induction l as [| e l IH]; simpl; [reflexivity | exact IH].
Qed.

Lemma all_submissions_base (l : list Event) : all_submissions (map Base l) = [].
Proof.
  unfold all_submissions. induction l as [| e l IH]; simpl; [reflexivity | exact IH].
Qed.

Lemma all_frees_base (l : list Event) : all_frees (map Base l) = [].
Proof.
  unfold all_frees. induction l as [| e l IH]; simpl; [reflexivity | exact IH].
Qed.

Lemma all_removes_base (l : list Event) : all_removes (map Base l) = removes l.
Proof.
  unfold all_removes, removes.
  induction l as [| e l IH]; simpl; [reflexivity |].
  rewrite IH. destruct e; reflexivity.
Qed.

Lemma u64_exact (z : Z) : 0 <= z < 2 ^ 64 -> u64 z = z.
Proof. intros H. unfold u64. apply Z.mod_small. exact H. Qed.

(** One turn of the loop. *)
Lemma submit_one_step (name : string) (w : AllWorld) :
  0 < pendingReq w < 2 ^ 64 ->
  let w' := snd (submit_one name w) in
  exists evs,
    a_trace w' = a_trace w ++ evs
    /\ cond_signals evs = 0%nat
    /\ all_removes evs = []
    /\ all_frees evs = []
    /\ (if readable name
        then pendingReq w' = pendingReq w
             /\ exists c, a_inflight w' = a_inflight w ++ [c]
                          /\ a_key c = GenPathByObjName name objectPrefix_
                          /\ all_submissions evs = [c]
        else pendingReq w' = pendingReq w - 1
             /\ a_inflight w' = a_inflight w
             /\ all_submissions evs = []).
Proof.
  intros Hp. cbv zeta. unfold submit_one, abind, lift, readable.
  destruct (DiskCacheMoreProofs.ReadFile_accounting name
              {| w_inflight := []; w_trace := [] |})
    as (evs0 & Htr & _ & _ & _ & Hrem & _ & _ & _ & _).
  destruct (ReadFile name {| w_inflight := []; w_trace := [] |}) as [res w1].
  cbn [fst snd w_trace] in Htr. cbn [app] in Htr. rewrite Htr.
  destruct w as [p inflight tr]. cbn [pendingReq a_inflight a_trace] in *.
  destruct res as [buf size | rc size]; cbn [fst].
  - unfold AllUpload, abind, aemit. cbn [snd pendingReq a_inflight a_trace].
    eexists. split; [rewrite <- app_assoc; reflexivity |].
    rewrite cond_signals_app, cond_signals_base.
    unfold all_removes, all_frees, all_submissions.
    repeat rewrite flat_map_app.
    fold (all_removes (map Base evs0)). fold (all_frees (map Base evs0)).
    fold (all_submissions (map Base evs0)).
    rewrite all_removes_base, all_frees_base, all_submissions_base, Hrem.
    simpl. repeat split. eexists. repeat split.
  - unfold fetch_sub, abind, aret. cbn [snd pendingReq a_inflight a_trace].
    exists (map Base evs0). split; [reflexivity |].
    rewrite cond_signals_base, all_removes_base, all_frees_base,
      all_submissions_base, Hrem.
    repeat split. apply u64_exact. lia.
Qed.

(** One completion by the object-store client. *)
Lemma all_complete_step (i : nat) (rc : Z) (w : AllWorld) :
  Z.of_nat (List.length (a_inflight w)) <= pendingReq w < 2 ^ 64 ->
  let w' := snd (all_complete_at i rc w) in
  exists evs,
    a_trace w' = a_trace w ++ evs
    /\ all_removes evs = []
    /\ Forall (fun c => exists c0, In c0 (a_inflight w) /\ a_key c = a_key c0)
         (all_submissions evs)
    /\ Forall (fun c => exists c0, In c0 (a_inflight w) /\ a_key c = a_key c0)
         (a_inflight w')
    /\ ((pendingReq w' = pendingReq w
         /\ List.length (a_inflight w') = List.length (a_inflight w)
         /\ cond_signals evs = 0%nat)
        \/ (pendingReq w' = pendingReq w - 1
            /\ (List.length (a_inflight w') + 1 = List.length (a_inflight w))%nat
            /\ cond_signals evs = if pendingReq w =? 1 then 1%nat else 0%nat)).
Proof.
  intros Hp. cbv zeta. unfold all_complete_at.
  destruct w as [p inflight tr]. cbn [pendingReq a_inflight a_trace] in *.
  assert (Hself : Forall (fun c => exists c0, In c0 inflight /\ a_key c = a_key c0)
                    inflight).
  { apply Forall_forall. intros c Hc. exists c. split; [exact Hc | reflexivity]. }
  destruct (nth_error inflight i) as [c |] eqn:Hnth.
  2:{ exists []. cbn [snd pendingReq a_inflight a_trace]. rewrite app_nil_r.
      split; [reflexivity |]. split; [reflexivity |].
      split; [constructor |]. split; [exact Hself |].
      left. repeat split. }
  pose proof (DiskCacheMoreProofs.length_without_nth _ _ _ Hnth) as Hlen.
  pose proof (DiskCacheMoreProofs.Forall_without_nth _ _ i Hself) as Hrest.
  pose proof (nth_error_In _ _ Hnth) as Hin.
  remember (firstn i inflight ++ skipn (S i) inflight) as others eqn:Hothers.
  unfold UploadAll_cb. change (a_retCode (a_with_retCode rc c)) with rc.
  destruct (0 <=? rc).
  - assert (Hu : u64 (p - 1) = p - 1).
    { apply u64_exact. rewrite <- Hlen in Hp. rewrite Nat2Z.inj_add in Hp.
      simpl in Hp. lia. }
    destruct s3Metric_;
      cbv [abind aemit aret fetch_sub snd fst pendingReq a_inflight a_trace];
      destruct (p =? 1) eqn:Hone;
      cbv [abind aemit aret fetch_sub snd fst pendingReq a_inflight a_trace];
      eexists;
      (split; [repeat rewrite <- app_assoc; reflexivity |]);
      (split; [reflexivity |]);
      (split; [constructor |]);
      (split; [exact Hrest |]);
      right; rewrite Hu; repeat split; lia.
  - unfold AllUpload, abind, aemit. cbn [snd pendingReq a_inflight a_trace].
    eexists. split; [reflexivity |].
    split; [reflexivity |].
    split.
    { simpl. constructor; [| constructor].
      exists c. split; [exact Hin | reflexivity]. }
    split.
    { apply Forall_app. split; [exact Hrest |].
      constructor; [| constructor].
      exists c. split; [exact Hin | reflexivity]. }
    left. repeat split. rewrite length_app. simpl. lia.
Qed.

Lemma key_of_listed_same_key (objs : list string) (l l' : list AllContext) :
  Forall (key_of_listed objs) l ->
  Forall (fun c => exists c0, In c0 l /\ a_key c = a_key c0) l' ->
  Forall (key_of_listed objs) l'.
Proof.
  intros Hl Hl'. apply Forall_forall. intros c Hc.
  destruct (proj1 (Forall_forall _ _) Hl' c Hc) as (c0 & Hin & Hkey).
  destruct (proj1 (Forall_forall _ _) Hl c0 Hin) as (name & Hn & Hr & Hk).
  exists name. repeat split; try assumption. rewrite Hkey. exact Hk.
Qed.

Lemma act_preserves (objs : list string) (t0 : list AllEvent) (a : Action)
    (s : list string * AllWorld) :
  flush_invariant objs t0 s -> flush_invariant objs t0 (act a s).
Proof.
  intros (evs & Htr & Hp & Hlt & Hsig & Hrem & Hsub & Hfly & Hleft).
  destruct s as [remaining w]. cbn [fst snd] in *.
  destruct a as [| i rc]; unfold act; cbn [fst snd].
  - destruct remaining as [| name rest].
    { exists evs. cbn [fst snd]. repeat split; assumption. }
    assert (Hpos : 0 < pendingReq w < 2 ^ 64).
    { rewrite Hp in *. simpl List.length in *. lia. }
    destruct (submit_one_step name w Hpos)
      as (evs1 & Htr1 & Hsig1 & Hrem1 & _ & Hcase).
    inversion Hleft as [| ? ? Hname Hrest]; subst.
    exists (evs ++ evs1). cbn [fst snd].
    split; [rewrite Htr1, Htr, app_assoc; reflexivity |].
    assert (Hnosig : cond_signals (evs ++ evs1) = 0%nat).
    { rewrite cond_signals_app, Hsig1.
      destruct Hsig as [H0 | [_ Hzero]]; [lia | lia]. }
    unfold all_removes, all_submissions in *.
    repeat rewrite flat_map_app. rewrite Hrem, Hrem1.
    destruct (readable name) eqn:Hread.
    + destruct Hcase as (Hsame & c & Hin & Hkey & Hs1).
      rewrite Hsame, Hin, Hs1, length_app.
      repeat split; try assumption; try (left; exact Hnosig).
      * rewrite Hp. simpl List.length. f_equal. lia.
      * apply Forall_app. split; [exact Hsub |].
        constructor; [| constructor]. exists name. repeat split; assumption.
      * apply Forall_app. split; [exact Hfly |].
        constructor; [| constructor]. exists name. repeat split; assumption.
    + destruct Hcase as (Hless & Hin & Hs1).
      rewrite Hless, Hin, Hs1, app_nil_r.
      repeat split; try assumption; try (left; exact Hnosig); try lia.
      * rewrite Hp. simpl List.length. lia.
      * rewrite app_nil_r. exact Hsub.
  - assert (Hbound : Z.of_nat (List.length (a_inflight w))
                     <= pendingReq w < 2 ^ 64).
    { rewrite Hp in *. lia. }
    destruct (all_complete_step i rc w Hbound)
      as (evs1 & Htr1 & Hrem1 & Hsub1 & Hfly1 & Hcase).
    exists (evs ++ evs1). cbn [fst snd].
    split; [rewrite Htr1, Htr, app_assoc; reflexivity |].
    pose proof (key_of_listed_same_key objs _ _ Hfly Hsub1) as Hsub1'.
    pose proof (key_of_listed_same_key objs _ _ Hfly Hfly1) as Hfly1'.
    unfold all_removes, all_submissions in *.
    repeat rewrite flat_map_app. rewrite Hrem, Hrem1.
    rewrite cond_signals_app.
    destruct Hcase as [(Hsame & Hlen & Hs1) | (Hless & Hlen & Hs1)].
    + rewrite Hsame, Hlen, Hs1, Nat.add_0_r.
      repeat split; try assumption.
      apply Forall_app. split; assumption.
    + assert (Hone : 1 <= pendingReq w) by (rewrite Hp; lia).
      assert (Hold : cond_signals evs = 0%nat).
      { destruct Hsig as [H0 | [_ Hzero]]; [exact H0 | lia]. }
      rewrite Hless, Hs1, Hold.
      repeat split; try assumption; try lia.
      * destruct (pendingReq w =? 1) eqn:E.
        -- right. apply Z.eqb_eq in E. split; [reflexivity | lia].
        -- left. reflexivity.
      * apply Forall_app. split; assumption.
Qed.

Lemma interleave_preserves (objs : list string) (t0 : list AllEvent)
    (actions : list Action) :
  forall s, flush_invariant objs t0 s ->
            flush_invariant objs t0 (interleave actions s).
Proof.
  induction actions as [| a rest IH]; intros s Hs; simpl.
  - exact Hs.
  - apply IH. apply act_preserves. exact Hs.
Qed.

Lemma loop_entry_invariant (objs : list string) (t0 : list AllEvent) :
  Z.of_nat (List.length objs) < 2 ^ 64 ->
  flush_invariant objs t0 (objs, loop_entry objs t0).
Proof.
  intros Hfit. exists []. cbn [fst snd loop_entry pendingReq a_inflight a_trace].
  rewrite app_nil_r. simpl List.length. rewrite Nat.add_0_r.
  split; [reflexivity |]. split; [reflexivity |]. split; [exact Hfit |].
  split; [left; reflexivity |]. split; [reflexivity |].
  split; [constructor |]. split; [constructor |].
  apply Forall_forall. intros n Hn. exact Hn.
Qed.

(** *** The function with the client running beside it *)




Lemma loop_submissions_app (t1 t2 : list AllEvent) :
  loop_submissions (t1 ++ t2) = loop_submissions t1 ++ loop_submissions t2.
Proof.
  unfold loop_submissions, all_submissions.
  rewrite flat_map_app, filter_app. reflexivity.
Qed.

Lemma all_frees_app (t1 t2 : list AllEvent) :
  all_frees (t1 ++ t2) = all_frees t1 ++ all_frees t2.
Proof. unfold all_frees. apply flat_map_app. Qed.


Lemma loop_submissions_base (l : list Event) :
  loop_submissions (map Base l) = [].
Proof. unfold loop_submissions. rewrite all_submissions_base. reflexivity. Qed.

(** One turn of the loop, for the progress it makes. *)
Lemma submit_one_progress (name : string) (w : AllWorld) :
  let w' := snd (submit_one name w) in
  exists evs,
    a_trace w' = a_trace w ++ evs
    /\ all_frees evs = []
    /\ (if readable name
        then exists c, a_inflight w' = a_inflight w ++ [c]
                       /\ loop_submissions evs = [c]
                       /\ a_key c = GenPathByObjName name objectPrefix_
        else a_inflight w' = a_inflight w /\ loop_submissions evs = []).
Proof.
  cbv zeta. unfold submit_one, abind, lift, readable.
  destruct (ReadFile name {| w_inflight := []; w_trace := [] |}) as [res w1].
  destruct w as [p inflight tr]. cbn [pendingReq a_inflight a_trace fst].
  destruct res as [buf size | rc size].
  - unfold AllUpload, abind, aemit. cbn [snd pendingReq a_inflight a_trace].
    eexists. split; [rewrite <- app_assoc; reflexivity |].
    rewrite all_frees_app, all_frees_base, loop_submissions_app,
      loop_submissions_base.
    split; [reflexivity |].
    eexists. split; [reflexivity |]. split; reflexivity.
  - unfold fetch_sub, abind, aret. cbn [snd pendingReq a_inflight a_trace].
    exists (map Base (w_trace w1)). split; [reflexivity |].
    rewrite all_frees_base, loop_submissions_base. repeat split.
Qed.

(** One attempt finished by the client, for the progress it makes: a
    success frees one buffer and takes one upload out of flight, a
    failure re-submits and changes neither count. *)
Lemma all_complete_progress (i : nat) (rc : Z) (w : AllWorld) :
  let w' := snd (all_complete_at i rc w) in
  exists evs,
    a_trace w' = a_trace w ++ evs
    /\ loop_submissions evs = []
    /\ (List.length (all_frees evs) + List.length (a_inflight w')
        = List.length (a_inflight w))%nat.
Proof.
  cbv zeta. unfold all_complete_at.
  destruct w as [p inflight tr]. cbn [pendingReq a_inflight a_trace].
  destruct (nth_error inflight i) as [c |] eqn:Hnth.
  2:{ exists []. cbn [snd pendingReq a_inflight a_trace]. rewrite app_nil_r.
      repeat split. }
  pose proof (DiskCacheMoreProofs.length_without_nth _ _ _ Hnth) as Hlen.
  remember (firstn i inflight ++ skipn (S i) inflight) as others eqn:Hothers.
  unfold UploadAll_cb. change (a_retCode (a_with_retCode rc c)) with rc.
  destruct (0 <=? rc) eqn:Hrc.
  - destruct s3Metric_;
      cbv [abind aemit aret fetch_sub snd fst pendingReq a_inflight a_trace];
      destruct (p =? 1);
      cbv [abind aemit aret fetch_sub snd fst pendingReq a_inflight a_trace];
      eexists;
      (split; [repeat rewrite <- app_assoc; reflexivity |]);
      (split; [reflexivity |]); simpl; lia.
  - unfold AllUpload, abind, aemit. cbn [snd pendingReq a_inflight a_trace].
    eexists. split; [reflexivity |].
    unfold loop_submissions, first_attempt. simpl.
    change (a_retCode (a_with_retCode rc c)) with rc.
    assert (Hne : (rc =? 0) = false).
    { apply Z.eqb_neq. apply Z.leb_gt in Hrc. lia. }
    rewrite Hne. split; [reflexivity |].
    rewrite length_app. simpl. lia.
Qed.





(** While the function waits, the latch is signalled no later than
    [pendingReq] reaches zero. *)
Lemma act_keeps_latch (objs : list string) (t0 : list AllEvent) (a : Action)
    (s : list string * AllWorld) :
  flush_invariant objs t0 s -> latch_tracks t0 s -> latch_tracks t0 (act a s).
Proof.
  intros (evs & Htr & Hp & Hlt & Hsig & _) [Hdone Hlatch].
  destruct s as [remaining w]. cbn [fst snd] in *. subst remaining.
  destruct a as [| i rc]; unfold act; cbn [fst snd].
  - split; [reflexivity | exact Hlatch].
  - split; [reflexivity |].
    assert (Hbound : Z.of_nat (List.length (a_inflight w))
                     <= pendingReq w < 2 ^ 64).
    { rewrite Hp in *. simpl. lia. }
    destruct (all_complete_step i rc w Hbound)
      as (evs1 & Htr1 & _ & _ & _ & Hcase).
    intros evs' Htr' Hquiet. cbn [fst snd] in Htr' |- *.
    rewrite Htr1, Htr, <- app_assoc in Htr'.
    apply app_inv_head in Htr'. subst evs'.
    rewrite cond_signals_app in Hquiet.
    assert (Hnz : pendingReq w <> 0).
    { apply (Hlatch evs Htr). lia. }
    destruct Hcase as [(Hsame & _ & _) | (Hless & _ & Hs1)].
    + rewrite Hsame. exact Hnz.
    + rewrite Hless. destruct (pendingReq w =? 1) eqn:E.
      * rewrite Hs1 in Hquiet. lia.
      * apply Z.eqb_neq in E. lia.
Qed.

Lemma interleave_keeps_latch (objs : list string) (t0 : list AllEvent)
    (actions : list Action) :
  forall s, flush_invariant objs t0 s -> latch_tracks t0 s ->
            latch_tracks t0 (interleave actions s).
Proof.
  induction actions as [| a rest IH]; intros s Hs Hl; simpl.
  - exact Hl.
  - apply IH; [apply act_preserves; exact Hs |].
    apply (act_keeps_latch objs); assumption.
Qed.





(** Whatever is done, the trace only grows. *)
Lemma interleave_extends (actions : list Action) :
  forall s, exists more,
    a_trace (snd (interleave actions s)) = a_trace (snd s) ++ more.
Proof.
  induction actions as [| a rest IH]; intros s; simpl.
  - exists []. rewrite app_nil_r. reflexivity.
  - destruct (IH (act a s)) as (more2 & Hmore2).
    assert (Hone : exists more1, a_trace (snd (act a s)) = a_trace (snd s) ++ more1).
    { destruct s as [todo w]. destruct a as [| i rc]; unfold act; cbn [fst snd].
      - destruct todo as [| name rest']; cbn [snd].
        + exists []. rewrite app_nil_r. reflexivity.
        + destruct (submit_one_progress name w) as (evs & Htr & _).
          exists evs. exact Htr.
      - destruct (all_complete_progress i rc w) as (evs & Htr & _).
        exists evs. exact Htr. }
    destruct Hone as (more1 & Hmore1).
    exists (more1 ++ more2). rewrite Hmore2, Hmore1, app_assoc. reflexivity.
Qed.

(** X19.  The countdown of [UploadAllCacheWriteFile], whatever the order
    in which the loop takes its turns and the object-store client
    completes or fails uploads: [pendingReq] is always the number of names
    still to go plus the number of uploads in flight; the latch is
    signalled at most once, and only when nothing is left to go and
    nothing is in flight; and when the loop is done with [pendingReq] not
    zero, so that the function waits, the latch has not been signalled
    yet, an upload is in flight, and whatever the client does from then
    on, by the time no upload is in flight any more the latch has been
    signalled, once: the success of the last upload signals it. *)
Theorem flush_pending_accounting (objs : list string) (actions : list Action)
    (t0 : list AllEvent) :
  Z.of_nat (List.length objs) < 2 ^ 64 ->
  let s := interleave actions (objs, loop_entry objs t0) in
  exists evs,
    a_trace (snd s) = t0 ++ evs
    /\ pendingReq (snd s)
       = Z.of_nat (List.length (fst s) + List.length (a_inflight (snd s)))
    /\ (cond_signals evs <= 1)%nat
    /\ (cond_signals evs = 1%nat -> fst s = [] /\ a_inflight (snd s) = [])
    /\ (fst s = [] -> pendingReq (snd s) <> 0 ->
        cond_signals evs = 0%nat /\ a_inflight (snd s) <> []
        /\ forall more,
             a_inflight (snd (interleave more s)) = [] ->
             exists evs',
               a_trace (snd (interleave more s)) = t0 ++ evs ++ evs'
               /\ cond_signals evs' = 1%nat).
Proof.
  intros Hfit. cbv zeta.
  pose proof (interleave_preserves objs t0 actions _
                (loop_entry_invariant objs t0 Hfit)) as Hinv.
  remember (interleave actions (objs, loop_entry objs t0)) as s eqn:Hs.
  clear Hs.
  destruct Hinv as (evs & Htr & Hp & Hlt & Hsig & Hrest).
  exists evs. split; [exact Htr |]. split; [exact Hp |].
  split; [destruct Hsig as [H | [H _]]; lia |].
  split.
  - intros Hone. destruct Hsig as [H | [_ Hzero]]; [lia |].
    rewrite Hzero in Hp.
    destruct (fst s); destruct (a_inflight (snd s));
      simpl in Hp; try lia. split; reflexivity.
  - intros Hdone Hwait.
    assert (Hquiet : cond_signals evs = 0%nat).
    { destruct Hsig as [H | [_ Hzero]]; [exact H | contradiction]. }
    split; [exact Hquiet |].
    split.
    { intros Hnone. rewrite Hdone, Hnone in Hp. simpl in Hp. contradiction. }
    intros more Hlanded.
    assert (Hinv : flush_invariant objs t0 s).
    { exists evs. repeat split; try assumption; apply Hrest. }
    assert (Hlatch : latch_tracks t0 s).
    { split; [exact Hdone |]. intros ? _ _. exact Hwait. }
    pose proof (interleave_preserves objs t0 more s Hinv) as Hinv'.
    pose proof (interleave_keeps_latch objs t0 more s Hinv Hlatch)
      as [Hdone' Hlatch'].
    destruct (interleave_extends more s) as (evs' & Hmore).
    exists evs'. rewrite Hmore, Htr, <- app_assoc.
    split; [reflexivity |].
    destruct Hinv' as (evs2 & Htr2 & Hp2 & _ & Hsig2 & _).
    rewrite Hmore, Htr, <- app_assoc in Htr2.
    apply app_inv_head in Htr2. subst evs2.
    rewrite Hdone', Hlanded in Hp2. simpl in Hp2.
    rewrite cond_signals_app, Hquiet in Hsig2. simpl in Hsig2.
    destruct Hsig2 as [Hnot | [Hone _]]; [| exact Hone].
    exfalso. apply (Hlatch' (evs ++ evs')).
    + rewrite Hmore, Htr, <- app_assoc. reflexivity.
    + rewrite cond_signals_app, Hquiet. exact Hnot.
    + exact Hp2.
Qed.


(** One turn of the second pass. *)
Lemma remove_one_step (name : string) (w : AllWorld) :
  let w' := snd (abind (lift (RemoveFile name)) (fun _ => aret tt) w) in
  pendingReq w' = pendingReq w
  /\ a_inflight w' = a_inflight w
  /\ exists evs,
       a_trace w' = a_trace w ++ evs
       /\ all_removes evs = [(GetCacheIoFullDir ++ "/" ++ name)%string]
       /\ all_submissions evs = []
       /\ cond_signals evs = 0%nat.
Proof.
  cbv zeta. unfold abind, lift, RemoveFile, bind, emit, ret, aret.
  destruct w as [p inflight tr].
  destruct (posix_remove (GetCacheIoFullDir ++ "/" ++ name) <? 0);
    cbn [fst snd w_trace w_inflight app map pendingReq a_inflight a_trace];
    (split; [reflexivity |]); (split; [reflexivity |]);
    eexists; (split; [reflexivity |]); repeat split.
Qed.

(** The second pass, from any world. *)
Lemma finish_removes (objs : list string) :
  forall w,
  let r := UploadAll_finish objs w in
  fst r = 0
  /\ pendingReq (snd r) = pendingReq w
  /\ a_inflight (snd r) = a_inflight w
  /\ exists evs,
       a_trace (snd r) = a_trace w ++ evs
       /\ all_removes evs
          = map (fun n => (GetCacheIoFullDir ++ "/" ++ n)%string) objs
       /\ all_submissions evs = []
       /\ cond_signals evs = 0%nat.
Proof.
  assert (Hloop : forall w,
            let w' := snd (for_each
                             (fun n => abind (lift (RemoveFile n))
                                         (fun _ => aret tt)) objs w) in
            pendingReq w' = pendingReq w
            /\ a_inflight w' = a_inflight w
            /\ exists evs,
                 a_trace w' = a_trace w ++ evs
                 /\ all_removes evs
                    = map (fun n => (GetCacheIoFullDir ++ "/" ++ n)%string) objs
                 /\ all_submissions evs = []
                 /\ cond_signals evs = 0%nat).
  { induction objs as [| name rest IH]; intros w; cbv zeta.
    - simpl. repeat split. exists []. rewrite app_nil_r. repeat split.
    - assert (Hstep : forall F : string -> AM unit,
                for_each F (name :: rest) w = for_each F rest (snd (F name w))).
      { intros F. simpl. unfold abind. destruct (F name w). reflexivity. }
      rewrite Hstep.
      destruct (remove_one_step name w)
        as (Hp1 & Hin1 & evs1 & Htr1 & Hrem1 & Hsub1 & Hsig1).
      remember (snd (abind (lift (RemoveFile name)) (fun _ => aret tt) w))
        as w1 eqn:Hw1.
      clear Hw1 Hstep.
      destruct (IH w1) as (Hp2 & Hin2 & evs2 & Htr2 & Hrem2 & Hsub2 & Hsig2).
      split; [rewrite Hp2; exact Hp1 |].
      split; [rewrite Hin2; exact Hin1 |].
      exists (evs1 ++ evs2).
      split; [rewrite Htr2, Htr1, app_assoc; reflexivity |].
      rewrite cond_signals_app, Hsig1, Hsig2.
      unfold all_removes, all_submissions in *.
      repeat rewrite flat_map_app. rewrite Hrem1, Hrem2, Hsub1, Hsub2.
      repeat split. }
  intros w. cbv zeta.
  assert (Heq : UploadAll_finish objs w
                = (0, snd (for_each
                             (fun n => abind (lift (RemoveFile n))
                                         (fun _ => aret tt)) objs w))).
  { unfold UploadAll_finish, abind at 1.
    destruct (for_each _ objs w). reflexivity. }
  rewrite Heq. cbn [fst snd].
  split; [reflexivity | exact (Hloop w)].
Qed.

(** X21.  [UploadAllCacheWriteFile] from its loop to its end, whatever
    happened while it looped and waited: the second pass calls remove on
    every listed name, in listing order, and the function returns 0
    whatever those calls return; while only names that [ReadFile] could
    read were ever submitted to the object store.  So a listed file that
    could not be read is removed from the cache without having been
    uploaded. *)
Theorem flush_removes_every_listed_name (objs : list string)
    (actions : list Action) (t0 : list AllEvent) :
  Z.of_nat (List.length objs) < 2 ^ 64 ->
  let s := interleave actions (objs, loop_entry objs t0) in
  let r := UploadAll_finish objs (snd s) in
  fst r = 0
  /\ exists evs,
       a_trace (snd r) = t0 ++ evs
       /\ all_removes evs
          = map (fun n => (GetCacheIoFullDir ++ "/" ++ n)%string) objs
       /\ Forall (fun c => exists name,
                    In name objs /\ readable name = true
                    /\ a_key c = GenPathByObjName name objectPrefix_)
            (all_submissions evs).
Proof.
  intros Hfit. cbv zeta.
  destruct (interleave_preserves objs t0 actions _
              (loop_entry_invariant objs t0 Hfit))
    as (evs1 & Htr1 & _ & _ & _ & Hrem1 & Hsub1 & _).
  destruct (finish_removes objs (snd (interleave actions (objs, loop_entry objs t0))))
    as (Hret & _ & _ & evs2 & Htr2 & Hrem2 & Hsub2 & _).
  split; [exact Hret |].
  exists (evs1 ++ evs2).
  split; [rewrite Htr2, Htr1, app_assoc; reflexivity |].
  unfold all_removes, all_submissions in *.
  repeat rewrite flat_map_app. rewrite Hrem1, Hrem2, Hsub2, app_nil_r.
  split; [reflexivity | exact Hsub1].
Qed.

End Facts.

(** *** Runs on the sample surroundings *)

(** C9.  The walk on a cache directory that holds the file [top] and, two
    directories down, the file sub/dir/file: the second file is recorded
    as [file], without the directories it lies in.  [ReadFile] and
    [RemoveFile] resolve a recorded name against the cache root, so the
    flush looks for /cache/file, which does not exist, although the staged
    file can be read under its relative path: it submits the upload of
    [top] only, calls remove on /cache/top and /cache/file, and returns 0
    with sub/dir/file neither uploaded nor removed. *)
Theorem listDir_loses_directory_of_entry :
  let listing := listDir "/cache"%string sample_cache_dir [] in
  let r := @UploadAllCacheWriteFile sample_nested_surroundings sample_paths
             sample_cache_dir sample_client fresh_world in
  listing = (true, ["top"; "file"]%string)
  /\ ~ In "sub/dir/file"%string (snd listing)
  /\ @readable sample_nested_surroundings "sub/dir/file"%string = true
  /\ @readable sample_nested_surroundings "file"%string = false
  /\ fst r = Some 0
  /\ map a_key (loop_submissions (a_trace (snd r))) = ["k/top"%string]
  /\ all_removes (a_trace (snd r)) = ["/cache/top"; "/cache/file"]%string.
Proof.
  cbv zeta.
  split; [reflexivity |].
  split; [simpl; intros [H | [H | []]]; discriminate H |].
  repeat split.
Qed.

Lemma flush_pending_accounting_witness :
  let s := @interleave sample_flush_surroundings sample_paths
             [Turn; Complete 0 (-1); Turn]
             (["obj"; "gone"]%string,
              loop_entry ["obj"; "gone"]%string []) in
  let s' := @interleave sample_flush_surroundings sample_paths
              [Complete 0 (-1); Complete 0 0] s in
  pendingReq (snd s) = 1
  /\ cond_signals (a_trace (snd s)) = 0%nat
  /\ cond_signals (a_trace (snd s')) = 1%nat.
Proof.
  intros s s'.
  assert (Hfit : Z.of_nat (List.length ["obj"; "gone"]%string) < 2 ^ 64)
    by (simpl; lia).
  destruct (@flush_pending_accounting sample_flush_surroundings sample_paths
              ["obj"; "gone"]%string
              [Turn; Complete 0 (-1); Turn] [] Hfit)
    as (evs & Htr & Hp & _ & _ & Hwait).
  change (a_trace (snd s) = evs) in Htr. subst evs.
  assert (Hnz : pendingReq (snd s) <> 0) by (vm_compute; discriminate).
  destruct (Hwait eq_refl Hnz) as (Hquiet & _ & Hlive).
  destruct (Hlive [Complete 0 (-1); Complete 0 0] eq_refl)
    as (evs' & Htr' & Hone).
  split; [exact Hp |]. split; [exact Hquiet |].
  change (a_trace (snd s') = a_trace (snd s) ++ evs') in Htr'.
  rewrite Htr', cond_signals_app, Hquiet. exact Hone.
Defined.


Lemma flush_removes_every_listed_name_witness :
  let s := @interleave sample_flush_surroundings sample_paths
             [Turn; Turn; Complete 0 0]
             (["obj"; "gone"]%string,
              loop_entry ["obj"; "gone"]%string []) in
  let r := @UploadAll_finish sample_flush_surroundings
             ["obj"; "gone"]%string (snd s) in
  all_removes (a_trace (snd r)) = ["/cache/obj"; "/cache/gone"]%string
  /\ map a_key (all_submissions (a_trace (snd r))) = ["k/obj"%string].
Proof.
  intros s r.
  assert (Hfit : Z.of_nat (List.length ["obj"; "gone"]%string) < 2 ^ 64)
    by (simpl; lia).
  destruct (@flush_removes_every_listed_name sample_flush_surroundings
              sample_paths ["obj"; "gone"]%string [Turn; Turn; Complete 0 0]
              [] Hfit)
    as (_ & evs & Htr & Hrem & _).
  change (a_trace (snd r) = evs) in Htr. subst evs.
  split; [exact Hrem | reflexivity].
Defined.

End UploadAllProofs.
